(** * Melody Sculptor: the sequencer of [src/components/MelodySculptorGame.js]

    A shallow embedding of the trigger engine of the component: the
    placement of instrument nodes ([placeInstrument]), the audio dispatch
    ([playSound]) and the per-frame callback ([animate]) that decays the
    visual feedback, moves the wand (the playhead), wraps it around and
    triggers the nodes it passes.

    JavaScript numbers are modelled as exact rationals kept in lowest terms
    ([Q] with [Qred] after each operation).  The wand only ever holds
    multiples of 0.5 between -100 and 100.5, which binary64 represents
    exactly.  Three computations of the code round in binary64 and are
    idealised by the rationals: the subtraction in the reach test of line
    301, the accumulation of [rotation.y] and the two interpolations of the
    decay.  Where a property is decided by such a rounding, the lines
    concerned are embedded a second time over binary64 itself (module
    [Binary64]), and properties of the engine are stated so that they do not
    depend on it: with the margin of the rounding where they compare numbers,
    with bounds where they follow an interpolation.

    The three.js objects the component touches ([Color], [Vector3], [Mesh])
    are modelled by the arithmetic of their methods.  The colour management
    of three.js r160 is left out: there [setHex] converts every channel from
    sRGB to the linear working space and [getHex] converts it back before
    rounding; here both take the transfer function to be the identity.  The
    round trip [getHex (setHex hex) = hex] is common to both; the channel
    values, and with them the frame in which a fading colour first rounds to
    the resting hex again, are not.  The properties below speak of a colour
    relative to the baseline of its node and to the guard of line 283, never
    of channel values.  The DOM is an input of every call: a finite map from
    element ids to class lists. *)

From Stdlib Require Import QArith Qabs Qround Qreduction Qpower Lqa ZArith Lia.
From Stdlib Require PrimFloat FloatOps SpecFloat.
From stdpp Require Import base list strings gmap.

(** ** JavaScript numbers *)

Module Num.

Definition add (a b : Q) : Q := Qred (a + b).
Definition sub (a b : Q) : Q := Qred (a - b).
Definition mul (a b : Q) : Q := Qred (a * b).
Definition div (a b : Q) : Q := Qred (a / b).
Definition neg (a : Q) : Q := Qred (- a).

(** [a < b] and [a > b] *)
Definition lt (a b : Q) : bool := negb (Qle_bool b a).
Definition gt (a b : Q) : bool := lt b a.

(** [Math.abs], [Math.min], [Math.max], [Math.round] *)
Definition abs (a : Q) : Q := Qabs a.
Definition min (a b : Q) : Q := if Qle_bool a b then a else b.
Definition max (a b : Q) : Q := if Qle_bool a b then b else a.
Definition round (a : Q) : Z := Qfloor (a + (1 # 2)).

(** three.js [MathUtils.clamp]: [Math.max(min, Math.min(max, value))] *)
Definition clamp (value lo hi : Q) : Q := max lo (min hi value).

Definition ofZ (n : Z) : Q := inject_Z n.

End Num.

(** ** three.js values *)

Module Color.

Record t : Type := mk { r : Q; g : Q; b : Q }.

(** [setHex]: the three bytes of [hex], each divided by 255 (and, in the
    library, converted from sRGB to linear, which is left out here). *)
Definition setHex (hex : Z) : t :=
  {| r := Num.div (Num.ofZ (Z.land (Z.shiftr hex 16) 255)) (Num.ofZ 255);
     g := Num.div (Num.ofZ (Z.land (Z.shiftr hex 8) 255)) (Num.ofZ 255);
     b := Num.div (Num.ofZ (Z.land hex 255)) (Num.ofZ 255) |}.

(** [Math.round(clamp(c * 255, 0, 255))]; the product only feeds the
    rounding, so it is not reduced to lowest terms. *)
Definition channelByte (c : Q) : Z :=
  Num.round (Num.clamp (c * Num.ofZ 255) (Num.ofZ 0) (Num.ofZ 255)).

(** [getHex]: every channel rounded to a byte (in the library after the
    conversion from linear back to sRGB, which is left out here). *)
Definition getHex (c : t) : Z :=
  (channelByte (r c) * 65536 + channelByte (g c) * 256 + channelByte (b c))%Z.

(** [this.lerp(color, alpha)]: [this.r += (color.r - this.r) * alpha], ... *)
Definition lerp (c color : t) (alpha : Q) : t :=
  {| r := Num.add (r c) (Num.mul (Num.sub (r color) (r c)) alpha);
     g := Num.add (g c) (Num.mul (Num.sub (g color) (g c)) alpha);
     b := Num.add (b c) (Num.mul (Num.sub (b color) (b c)) alpha) |}.

End Color.

Module Vector3.

Record t : Type := mk { x : Q; y : Q; z : Q }.

(** [this.lerp(v, alpha)]: [this.x += (v.x - this.x) * alpha], ... *)
Definition lerp (u v : t) (alpha : Q) : t :=
  {| x := Num.add (x u) (Num.mul (Num.sub (x v) (x u)) alpha);
     y := Num.add (y u) (Num.mul (Num.sub (y v) (y u)) alpha);
     z := Num.add (z u) (Num.mul (Num.sub (z v) (z u)) alpha) |}.

Definition set_x (v : Q) (u : t) : t := {| x := v; y := y u; z := z u |}.
Definition set_y (v : Q) (u : t) : t := {| x := x u; y := v; z := z u |}.

End Vector3.

Inductive Geometry : Type :=
  | TorusKnotGeometry
  | ConeGeometry
  | BoxGeometry.

(** [MeshStandardMaterial]: the [color] is kept as the hex it was built
    from, the [emissive] colour is the one the flash animates. *)
Record Material : Type := mkMaterial {
  color : Z;
  metalness : Q;
  roughness : Q;
  emissive : Color.t
}.

Definition MeshStandardMaterial (color : Z) (metalness roughness : Q)
    (emissive : Z) : Material :=
  {| color := color; metalness := metalness; roughness := roughness;
     emissive := Color.setHex emissive |}.

Record UserData : Type := mkUserData {
  type : string;
  originalEmissive : Z;
  hasBeenTriggered : bool
}.

Record Mesh : Type := mkMesh {
  geometry : Geometry;
  material : Material;
  position : Vector3.t;
  rotation : Vector3.t;
  scale : Vector3.t;
  castShadow : bool;
  userData : UserData
}.

(** [new THREE.Mesh(geometry, material)]: at the origin, unrotated, scale 1;
    [userData] is the empty object, whose three fields [placeInstrument]
    assigns before the node is published. *)
Definition THREE_Mesh (geo : Geometry) (mat : Material) : Mesh :=
  {| geometry := geo; material := mat;
     position := Vector3.mk 0 0 0;
     rotation := Vector3.mk 0 0 0;
     scale := Vector3.mk 1 1 1;
     castShadow := false;
     userData := {| type := ""; originalEmissive := 0; hasBeenTriggered := false |} |}.

(** Field updates, as the assignments of the source. *)

Definition set_emissive (c : Color.t) (n : Mesh) : Mesh :=
  {| geometry := geometry n;
     material := {| color := color (material n); metalness := metalness (material n);
                    roughness := roughness (material n); emissive := c |};
     position := position n; rotation := rotation n; scale := scale n;
     castShadow := castShadow n; userData := userData n |}.

Definition set_position (p : Vector3.t) (n : Mesh) : Mesh :=
  {| geometry := geometry n; material := material n;
     position := p; rotation := rotation n; scale := scale n;
     castShadow := castShadow n; userData := userData n |}.

Definition set_rotation (p : Vector3.t) (n : Mesh) : Mesh :=
  {| geometry := geometry n; material := material n;
     position := position n; rotation := p; scale := scale n;
     castShadow := castShadow n; userData := userData n |}.

Definition set_scale (p : Vector3.t) (n : Mesh) : Mesh :=
  {| geometry := geometry n; material := material n;
     position := position n; rotation := rotation n; scale := p;
     castShadow := castShadow n; userData := userData n |}.

Definition set_castShadow (v : bool) (n : Mesh) : Mesh :=
  {| geometry := geometry n; material := material n;
     position := position n; rotation := rotation n; scale := scale n;
     castShadow := v; userData := userData n |}.

Definition set_userData (u : UserData) (n : Mesh) : Mesh :=
  {| geometry := geometry n; material := material n;
     position := position n; rotation := rotation n; scale := scale n;
     castShadow := castShadow n; userData := u |}.

Definition set_hasBeenTriggered (v : bool) (n : Mesh) : Mesh :=
  set_userData {| type := type (userData n);
                  originalEmissive := originalEmissive (userData n);
                  hasBeenTriggered := v |} n.

(** ** The engine's objects ([gameRefs.current]) *)

(** A decoded buffer, named by the file it was decoded from. *)
Inductive AudioBuffer : Type := Decoded (url : string).

(** The audio context, observed by the buffer sources started on it. *)
Record AudioContext : Type := mkAudioContext {
  started : list AudioBuffer
}.

Record Refs : Type := mkRefs {
  scene : bool;      (* the rendering objects are kept by presence only *)
  camera : bool;
  renderer : bool;
  clock : bool;
  wandGroup : option Vector3.t;   (* the position of the wand *)
  soundNodes : list Mesh;
  soundBuffers : gmap string AudioBuffer;
  audioContext : option AudioContext
}.

Definition set_wandGroup (w : option Vector3.t) (s : Refs) : Refs :=
  {| scene := scene s; camera := camera s; renderer := renderer s; clock := clock s;
     wandGroup := w; soundNodes := soundNodes s;
     soundBuffers := soundBuffers s; audioContext := audioContext s |}.

Definition set_soundNodes (l : list Mesh) (s : Refs) : Refs :=
  {| scene := scene s; camera := camera s; renderer := renderer s; clock := clock s;
     wandGroup := wandGroup s; soundNodes := l;
     soundBuffers := soundBuffers s; audioContext := audioContext s |}.

Definition set_soundBuffers (m : gmap string AudioBuffer) (s : Refs) : Refs :=
  {| scene := scene s; camera := camera s; renderer := renderer s; clock := clock s;
     wandGroup := wandGroup s; soundNodes := soundNodes s;
     soundBuffers := m; audioContext := audioContext s |}.

Definition set_audioContext (a : option AudioContext) (s : Refs) : Refs :=
  {| scene := scene s; camera := camera s; renderer := renderer s; clock := clock s;
     wandGroup := wandGroup s; soundNodes := soundNodes s;
     soundBuffers := soundBuffers s; audioContext := a |}.

(** ** The DOM *)

(** Element id to class list; an id that is not bound has no element. *)
Abbreviation DOM := (gmap string (list string)).

(** [document.getElementById(id)?.classList.contains(cls)], as a condition:
    [undefined] (no such element) is falsy. *)
Definition classListContains (dom : DOM) (id cls : string) : bool :=
  match dom !! id with
  | Some classList => bool_decide (cls ∈ classList)
  | None => false
  end.

(** ** placeInstrument *)

(** A call returns, or throws on a property read on [undefined]; either way
    the engine's objects are left as [a]. *)
Inductive Result (A : Type) : Type :=
  | Ok (a : A)
  | TypeError (a : A).
Arguments Ok {A} a.
Arguments TypeError {A} a.

(** Lines 224-226: the type is read from the selector buttons. *)
Definition currentTypeOf (dom : DOM) : string :=
  let currentType := "synth" in
  let currentType :=
    if classListContains dom "pluck-btn" "active" then "pluck" else currentType in
  let currentType :=
    if classListContains dom "kick-btn" "active" then "kick" else currentType in
  currentType.

Definition synthMat : Material := MeshStandardMaterial 0x00BFFF (9 # 10) (2 # 10) 0x005f7f.
Definition pluckMat : Material := MeshStandardMaterial 0xFFD700 (7 # 10) (3 # 10) 0x996515.
Definition kickMat : Material := MeshStandardMaterial 0xDC143C (4 # 10) (8 # 10) 0x8B0000.

(** Lines 235-240: the [switch] has no [default]; for any other string
    [newNode] stays [undefined]. *)
Definition newNodeOf (currentType : string) : option Mesh :=
  if String.eqb currentType "synth" then Some (THREE_Mesh TorusKnotGeometry synthMat)
  else if String.eqb currentType "pluck" then Some (THREE_Mesh ConeGeometry pluckMat)
  else if String.eqb currentType "kick" then Some (THREE_Mesh BoxGeometry kickMat)
  else None.

(** Lines 228-249, for the type chosen at lines 224-226. *)
Definition placeInstrumentAs (currentType : string) (point : Vector3.t)
    (refs : Refs) : Result Refs :=
  match newNodeOf currentType with
  | None => TypeError refs   (* [newNode.position] on [undefined] *)
  | Some newNode =>
      let newNode := set_position point newNode in
      let newNode :=
        set_position (Vector3.set_y (Num.add (Vector3.y (position newNode)) 1)
                        (position newNode)) newNode in
      let newNode := set_castShadow true newNode in
      let newNode :=
        set_userData {| type := currentType;
                        originalEmissive := Color.getHex (emissive (material newNode));
                        hasBeenTriggered := false |} newNode in
      Ok (set_soundNodes (soundNodes refs ++ [newNode]) refs)
  end.

Definition placeInstrument (dom : DOM) (point : Vector3.t) (refs : Refs) : Result Refs :=
  placeInstrumentAs (currentTypeOf dom) point refs.

(** ** playSound *)

(** [buffer] is [refs.soundBuffers[type]]: [None] when the entry is absent.
    Only the audio context is touched. *)
Definition playSound (buffer : option AudioBuffer) (ctx : option AudioContext)
    : option AudioContext :=
  match buffer, ctx with
  | Some buf, Some c => Some {| started := started c ++ [buf] |}
  | _, _ => ctx
  end.

(** ** animate *)

Definition planeSize : Q := 200.

(** Lines 281-288: the body of the first [forEach].  The sum and the two
    interpolations are exact here and rounded to binary64 in the code. *)
Definition decayNode (node : Mesh) : Mesh :=
  let ty := type (userData node) in
  let node :=
    if String.eqb ty "synth" || String.eqb ty "pluck"
    then set_rotation (Vector3.set_y (Num.add (Vector3.y (rotation node)) (1 # 100))
                         (rotation node)) node
    else node in
  let node :=
    if negb (Color.getHex (emissive (material node)) =? originalEmissive (userData node))%Z
    then set_emissive (Color.lerp (emissive (material node))
                         (Color.setHex (originalEmissive (userData node))) (1 # 10)) node
    else node in
  let node :=
    if String.eqb ty "kick" && Num.gt (Vector3.x (scale node)) 1
    then set_scale (Vector3.lerp (scale node) (Vector3.mk 1 1 1) (1 # 10)) node
    else node in
  node.

(** Line 301: the condition of the trigger.  The difference is exact here;
    the code rounds it to binary64, where a distance within 2^-54 of 1.0 can
    come out as 1.0 and leave the node out of reach ([Binary64.inReach]). *)
Definition inReach (wandX : Q) (node : Mesh) : bool :=
  negb (hasBeenTriggered (userData node))
  && Num.lt (Num.abs (Num.sub (Vector3.x (position node)) wandX)) 1.

(** Lines 302-304: what a trigger does to the node. *)
Definition fire (node : Mesh) : Mesh :=
  let node := set_hasBeenTriggered true node in
  let node := set_emissive (Color.setHex 0xffffff) node in
  let node :=
    if String.eqb (type (userData node)) "kick"
    then set_scale (Vector3.mk (6 # 5) (6 # 5) (6 # 5)) node
    else node in
  node.

(** Lines 300-307: the last [forEach].  Besides the nodes and the audio
    context it returns, per node and in order, whether the trigger ran. *)
Fixpoint detect (wandX : Q) (buffers : gmap string AudioBuffer)
    (nodes : list Mesh) (ctx : option AudioContext)
    : list Mesh * list bool * option AudioContext :=
  match nodes with
  | [] => ([], [], ctx)
  | node :: rest =>
      if inReach wandX node then
        let node' := fire node in
        let ctx' := playSound (buffers !! type (userData node')) ctx in
        let '(rest', fired, ctx'') := detect wandX buffers rest ctx' in
        (node' :: rest', true :: fired, ctx'')
      else
        let '(rest', fired, ctx') := detect wandX buffers rest ctx in
        (node :: rest', false :: fired, ctx')
  end.

(** Line 293: the wand moves by half a unit. *)
Definition advanceWand (wand : Vector3.t) : Vector3.t :=
  Vector3.set_x (Num.add (Vector3.x wand) (1 # 2)) wand.

(** Line 295: the wand is past the edge of the plane. *)
Definition pastEdge (wand : Vector3.t) : bool :=
  Num.gt (Vector3.x wand) (Num.div planeSize 2).

(** Lines 295-298: back to the other edge, every flag cleared. *)
Definition wrapAround (wand : Vector3.t) (nodes : list Mesh) : Vector3.t * list Mesh :=
  if pastEdge wand
  then (Vector3.set_x (Num.div (Num.neg planeSize) 2) wand,
        fmap (set_hasBeenTriggered false) nodes)
  else (wand, nodes).

(** Line 267: the frame does nothing until the rendering objects exist. *)
Definition notReady (refs : Refs) : bool :=
  negb (clock refs) || negb (scene refs) || negb (camera refs) || negb (renderer refs).

(** Line 278 *)
Definition isGamePlaying (dom : DOM) : bool :=
  classListContains dom "play-stop-btn" "stop".

(** One frame.  The result pairs the engine's objects with the triggers of
    the frame: one boolean per node visited by the detection, none when the
    detection did not run. *)
Definition animate (dom : DOM) (refs : Refs) : Refs * list bool :=
  if notReady refs then (refs, [])
  else
    let refs := set_soundNodes (fmap decayNode (soundNodes refs)) refs in
    match wandGroup refs with
    | Some wand =>
        if isGamePlaying dom then
          let wand := advanceWand wand in
          let '(wand, nodes) := wrapAround wand (soundNodes refs) in
          let '(nodes, fired, ctx) :=
            detect (Vector3.x wand) (soundBuffers refs) nodes (audioContext refs) in
          (set_audioContext ctx (set_soundNodes nodes (set_wandGroup (Some wand) refs)),
           fired)
        else (refs, [])
    | None => (refs, [])
    end.

(** Frames in sequence, one DOM per frame; the triggers of every frame. *)
Fixpoint run (doms : list DOM) (refs : Refs) : Refs * list (list bool) :=
  match doms with
  | [] => (refs, [])
  | dom :: rest =>
      let '(refs', fired) := animate dom refs in
      let '(refs'', log) := run rest refs' in
      (refs'', fired :: log)
  end.

(** How often node [i] was triggered in the frames of a log. *)
Definition triggerCount (i : nat) (log : list (list bool)) : nat :=
  length (filter (λ fired : list bool, fired !! i = Some true) log).

(** ** The rounding lines in binary64 *)

(** The three lines of [animate] whose outcome can turn on a rounding,
    over the binary64 numbers the code computes with: the advance of the wand
    (line 293), the reach test (line 301) and the decay of the scale (lines
    286-288, one component of the uniform scale). *)
Module Binary64.

Import PrimFloat FloatOps SpecFloat.
#[local] Set Warnings "-inexact-float".


(** Line 293: [position.x += 0.5] *)
Definition advanceWand (wandX : float) : float := (wandX + 0.5)%float.

(** Line 301 *)
Definition inReach (triggered : bool) (nodeX wandX : float) : bool :=
  negb triggered && (abs (nodeX - wandX) <? 1.0)%float.

(** [Vector3.lerp], one component: [this.x += (v.x - this.x) * alpha] *)
Definition lerp (x v alpha : float) : float := (x + (v - x) * alpha)%float.




End Binary64.

(** ** The vocabulary of the specification *)

(** The colour a node rests at, and pure white, the colour of the flash. *)
Definition baseline (node : Mesh) : Color.t :=
  Color.setHex (originalEmissive (userData node)).

Definition white : Color.t := Color.setHex 0xffffff.

(** The node's highlight is [h]: its emissive colour lies at fraction [h]
    of the way from its baseline to white, in every channel. *)
Definition hasHighlight (node : Mesh) (h : Q) : Prop :=
  let e := emissive (material node) in
  let o := baseline node in
  Color.r e == Color.r o + h * (1 - Color.r o)
  /\ Color.g e == Color.g o + h * (1 - Color.g o)
  /\ Color.b e == Color.b o + h * (1 - Color.b o).

(** The decay of the flash is still on: the colour as displayed (rounded
    to bytes) differs from the baseline's. *)
Definition flashVisible (node : Mesh) : bool :=
  negb (Color.getHex (emissive (material node)) =? originalEmissive (userData node))%Z.

(** The node's highlight lies between [lo] and [hi]: in every channel its
    emissive colour lies between these fractions of the way from its
    baseline to white. *)
Definition highlightWithin (node : Mesh) (lo hi : Q) : Prop :=
  let e := emissive (material node) in
  let o := baseline node in
  (Color.r o + lo * (1 - Color.r o) <= Color.r e <= Color.r o + hi * (1 - Color.r o))%Q
  /\ (Color.g o + lo * (1 - Color.g o) <= Color.g e <= Color.g o + hi * (1 - Color.g o))%Q
  /\ (Color.b o + lo * (1 - Color.b o) <= Color.b e <= Color.b o + hi * (1 - Color.b o))%Q.

Definition recognised (ty : string) : Prop :=
  ty = "synth" \/ ty = "pluck" \/ ty = "kick".

Definition playing (dom : DOM) : Prop := isGamePlaying dom = true.
Definition ready (refs : Refs) : Prop := notReady refs = false.

(** What the detection does to one node, and to the audio context. *)
Definition touch (wandX : Q) (node : Mesh) : Mesh :=
  if inReach wandX node then fire node else node.

Definition dispatch (wandX : Q) (buffers : gmap string AudioBuffer)
    (ctx : option AudioContext) (node : Mesh) : option AudioContext :=
  if inReach wandX node then playSound (buffers !! type (userData node)) ctx else ctx.

(** The order of the frame as the specification words it: advance, wrap and
    reset, detection with dispatch and impulse, and the decay of every node
    last.  Only compared with [animate], never used to run the engine. *)
Definition animateDecayLast (dom : DOM) (refs : Refs) : Refs * list bool :=
  if notReady refs then (refs, [])
  else
    let '(refs, fired) :=
      match wandGroup refs with
      | Some wand =>
          if isGamePlaying dom then
            let wand := advanceWand wand in
            let '(wand, nodes) := wrapAround wand (soundNodes refs) in
            let '(nodes, fired, ctx) :=
              detect (Vector3.x wand) (soundBuffers refs) nodes (audioContext refs) in
            (set_audioContext ctx (set_soundNodes nodes (set_wandGroup (Some wand) refs)),
             fired)
          else (refs, [])
      | None => (refs, [])
      end in
    (set_soundNodes (fmap decayNode (soundNodes refs)) refs, fired).

(** ** A session *)

(** The play button as rendered while playing and while stopped, and the
    selector buttons with one instrument active. *)
Definition playingDom : DOM := {[ "play-stop-btn" := ["stop-state"; "stop"] ]}.
Definition stoppedDom : DOM := {[ "play-stop-btn" := ["play-state"; "play"] ]}.

Definition selectorDom (active : string) : DOM :=
  let classes (inst : string) :=
    if String.eqb active inst then ["instrument-btn"; "active"] else ["instrument-btn"; ""] in
  {[ "synth-btn" := classes "synth";
     "pluck-btn" := classes "pluck";
     "kick-btn" := classes "kick" ]}.

(** The engine after [startGame]: the wand at the left edge, no node, no
    buffer decoded yet. *)
Definition startRefs : Refs :=
  {| scene := true; camera := true; renderer := true; clock := true;
     wandGroup := Some (Vector3.mk (Num.div (Num.neg planeSize) 2) 0 0);
     soundNodes := [];
     soundBuffers := ∅;
     audioContext := Some {| started := [] |} |}.

Definition loadedBuffers : gmap string AudioBuffer :=
  {[ "synth" := Decoded "2.wav"; "pluck" := Decoded "1.wav"; "kick" := Decoded "3.wav" ]}.

Definition orElse (r : Result Refs) (d : Refs) : Refs :=
  match r with Ok refs => refs | TypeError _ => d end.

Definition place (active : string) (px : Q) (refs : Refs) : Refs :=
  orElse (placeInstrument (selectorDom active) (Vector3.mk px 0 0) refs) refs.

(** Synth at -50, Pluck at 0, Kick at 50, placed in this order. *)
Definition scenario : Refs :=
  place "kick" 50 (place "pluck" 0 (place "synth" (-50) startRefs)).

(** A single Kick half a unit right of the resting wand. *)
Definition kickAtEdge : Refs := place "kick" (-199 # 2) startRefs.

(** The three nodes at the end of a sweep: every flag set, the wand on the
    right edge. *)
Definition endOfSweep : Refs :=
  set_wandGroup (Some (Vector3.mk 100 0 0))
    (set_soundNodes (set_hasBeenTriggered true <$> soundNodes scenario) scenario).

(** The same nodes in mid-sweep, the Synth already triggered. *)
Definition midSweep : Refs :=
  set_wandGroup (Some (Vector3.mk (-20) 0 0))
    (set_soundNodes (alter fire 0%nat (soundNodes scenario)) scenario).

(** The Kick at the edge right after its trigger: white, at scale 1.2. *)
Definition flashed : Refs := (animate playingDom kickAtEdge).1.

(** What the decay reads and writes of a node: its material and scale, its
    type and resting colour. *)
Definition look (node : Mesh) : Material * Vector3.t * string * Z :=
  (material node, scale node, type (userData node), originalEmissive (userData node)).

(** ** The page around the engine *)

(** Lines 7-8: the React state of the component. *)
Record UiState : Type := mkUiState {
  activeInstrument : string;
  isPlaying : bool
}.

Definition initialUi : UiState :=
  {| activeInstrument := "synth"; isPlaying := false |}.

(** Lines 332-337 *)
Definition toggleInstrument (inst : string) (ui : UiState) : UiState :=
  {| activeInstrument := inst; isPlaying := isPlaying ui |}.

Definition togglePlay (ui : UiState) : UiState :=
  {| activeInstrument := activeInstrument ui; isPlaying := negb (isPlaying ui) |}.

(** The class list of an element is its [className] split at ASCII
    whitespace (tab, line feed, form feed, carriage return, space). *)
Definition isAsciiWhitespace (c : Ascii.ascii) : bool :=
  let code := Ascii.nat_of_ascii c in
  Nat.eqb code 9 || Nat.eqb code 10 || Nat.eqb code 12 || Nat.eqb code 13
  || Nat.eqb code 32.

(** [cur] is the token read so far. *)
Fixpoint tokensFrom (cur : string) (s : string) : list string :=
  match s with
  | EmptyString => if String.eqb cur "" then [] else [cur]
  | String c rest =>
      if isAsciiWhitespace c
      then (if String.eqb cur "" then tokensFrom "" rest else cur :: tokensFrom "" rest)
      else tokensFrom (cur ++ String c "") rest
  end.

Definition classListOf (className : string) : list string := tokensFrom "" className.

(** Lines 401-428: the class names of the four buttons, as rendered. *)
Definition instrumentClassName (ui : UiState) (inst : string) : string :=
  "instrument-btn " ++ (if String.eqb (activeInstrument ui) inst then "active" else "").

Definition playStopClassName (ui : UiState) : string :=
  if isPlaying ui then "stop-state stop" else "play-state play".

Definition render (ui : UiState) : DOM :=
  {[ "synth-btn" := classListOf (instrumentClassName ui "synth");
     "pluck-btn" := classListOf (instrumentClassName ui "pluck");
     "kick-btn" := classListOf (instrumentClassName ui "kick");
     "play-stop-btn" := classListOf (playStopClassName ui) ]}.

(** ** loadSound *)

(** Lines 92-94: the callback of [decodeAudioData] for [loadSound(name, url)],
    run when the file has been fetched and decoded; a load that fails never
    runs it. *)
Definition onDecoded (name : string) (buffer : AudioBuffer) (refs : Refs) : Refs :=
  set_soundBuffers (<[name := buffer]> (soundBuffers refs)) refs.

(** ** onCanvasClick *)

(** What the click handler reads and writes besides the engine's objects:
    the plane the ray is cast on (by presence), the pointer in normalised
    device coordinates, and whether the audio context is suspended. *)
Record Stage : Type := mkStage {
  engine : Refs;
  musicalPlane : bool;
  pointer : Q * Q;
  audioSuspended : bool
}.

Record Window : Type := mkWindow { innerWidth : Q; innerHeight : Q }.
Record MouseEvent : Type := mkMouseEvent { clientX : Q; clientY : Q }.

Definition set_engine (e : Refs) (st : Stage) : Stage :=
  {| engine := e; musicalPlane := musicalPlane st; pointer := pointer st;
     audioSuspended := audioSuspended st |}.

Definition set_pointer (p : Q * Q) (st : Stage) : Stage :=
  {| engine := engine st; musicalPlane := musicalPlane st; pointer := p;
     audioSuspended := audioSuspended st |}.

Definition set_audioSuspended (v : bool) (st : Stage) : Stage :=
  {| engine := engine st; musicalPlane := musicalPlane st; pointer := pointer st;
     audioSuspended := v |}.

(** Lines 208-209 *)
Definition pointerOf (win : Window) (event : MouseEvent) : Q * Q :=
  (Num.sub (Num.mul (Num.div (clientX event) (innerWidth win)) 2) 1,
   Num.add (Num.mul (Num.neg (Num.div (clientY event) (innerHeight win))) 2) 1).

(** Lines 198-217.  [raycast] is three.js casting the ray of a pointer from
    the camera on the plane: it returns the intersections, nearest first. *)
Definition onCanvasClick (raycast : Q * Q -> list Vector3.t) (win : Window)
    (event : MouseEvent) (dom : DOM) (st : Stage) : Result Stage :=
  let st :=
    match audioContext (engine st) with
    | Some _ => if audioSuspended st then set_audioSuspended false st else st
    | None => st
    end in
  if negb (camera (engine st)) || negb (musicalPlane st) then Ok st
  else
    let st := set_pointer (pointerOf win event) st in
    match raycast (pointer st) with
    | [] => Ok st
    | hit :: _ =>
        match placeInstrument dom hit (engine st) with
        | Ok e => Ok (set_engine e st)
        | TypeError e => TypeError (set_engine e st)
        end
    end.

(** ** Sessions *)

(** The plane is 200 wide, centred on the origin: a point the ray hits on it
    has its x between -100 and 100. *)
Definition onPlane (point : Vector3.t) : Prop :=
  (-100 <= Vector3.x point)%Q /\ (Vector3.x point <= 100)%Q.

(** The engines a session can be in: after [startGame], buffers get decoded,
    nodes get placed on the plane and frames run, in any order. *)
Inductive reachable : Refs -> Prop :=
  | reach_start : reachable startRefs
  | reach_decoded name buffer refs :
      reachable refs -> reachable (onDecoded name buffer refs)
  | reach_place dom point refs refs' :
      reachable refs -> onPlane point ->
      placeInstrument dom point refs = Ok refs' -> reachable refs'
  | reach_frame dom refs :
      reachable refs -> reachable (animate dom refs).1.

(** A node as a session keeps it: of a known type, on the plane, its scale
    uniform between 1 and 1.2 (exactly 1 unless it is a Kick), its highlight
    between 0 and 1. *)
Definition nodeOk (node : Mesh) : Prop :=
  recognised (type (userData node))
  /\ onPlane (position node)
  /\ (exists s, scale node = Vector3.mk s s s
        /\ (1 <= s)%Q /\ (s <= 6 # 5)%Q
        /\ (type (userData node) <> "kick" -> s = 1%Q))
  /\ (exists h, (0 <= h)%Q /\ (h <= 1)%Q /\ hasHighlight node h).

(** The wand as a session keeps it: present, on the plane, [m] half units
    from the left edge. *)
Definition wandOk (refs : Refs) : Prop :=
  exists m : Z, (0 <= m <= 400)%Z
    /\ wandGroup refs
       = Some (Vector3.mk (Qred (-100 + inject_Z m * (1 # 2))) 0 0).

(** What the playhead logic reads and writes: the wand, and of each node
    where it stands and whether it has been triggered. *)
Definition nodeSkeleton (node : Mesh) : Vector3.t * bool :=
  (position node, hasBeenTriggered (userData node)).

Definition skeleton (refs : Refs) : option Vector3.t * list (Vector3.t * bool) :=
  (wandGroup refs, nodeSkeleton <$> soundNodes refs).

(** What a placement fixes of a node for good: its shape and surface, where
    it stands, its instrument and its resting colour. *)
Definition placedAs (node : Mesh)
    : Geometry * (Z * Q * Q) * Vector3.t * bool * string * Z :=
  (geometry node,
   (color (material node), metalness (material node), roughness (material node)),
   position node, castShadow node,
   type (userData node), originalEmissive (userData node)).

(** * Properties *)

Local Open Scope Q_scope.

(** ** Numbers *)

Lemma Num_add_eq a b : Num.add a b == a + b.
Proof. apply Qred_correct. Qed.

Lemma Num_sub_eq a b : Num.sub a b == a - b.
Proof. apply Qred_correct. Qed.

Lemma Num_mul_eq a b : Num.mul a b == a * b.
Proof. apply Qred_correct. Qed.

Lemma Num_div_eq a b : Num.div a b == a / b.
Proof. apply Qred_correct. Qed.

Lemma byte_bounds (n : Z) : (0 <= Z.land n 255 <= 255)%Z.
Proof.
  change 255%Z with (Z.ones 8). rewrite Z.land_ones by lia.
  pose proof (Z.mod_pos_bound n (2 ^ 8)). change (Z.ones 8) with 255%Z. lia.
Qed.

Lemma Num_lt_spec a b : Num.lt a b = true <-> a < b.
Proof.
  unfold Num.lt. rewrite negb_true_iff.
  split.
  - intros H. apply Qnot_le_lt. intros Hle.
    apply Qle_bool_iff in Hle. congruence.
  - intros H. destruct (Qle_bool b a) eqn:E; [|reflexivity].
    apply Qle_bool_iff in E. exfalso. eapply Qlt_not_le; eauto.
Qed.

Lemma Num_lt_false a b : Num.lt a b = false <-> b <= a.
Proof.
  unfold Num.lt. rewrite negb_false_iff. apply Qle_bool_iff.
Qed.

Lemma right_edge : Num.div planeSize 2 = 100.
Proof. reflexivity. Qed.

Lemma left_edge : Num.div (Num.neg planeSize) 2 = -100.
Proof. reflexivity. Qed.

(** The reach test of line 301, as an inequality on rationals. *)
Lemma inReach_spec wandX node :
  inReach wandX node = true <->
  hasBeenTriggered (userData node) = false
  /\ Qabs (Vector3.x (position node) - wandX) < 1.
Proof.
  unfold inReach, Num.abs. rewrite andb_true_iff, negb_true_iff, Num_lt_spec.
  rewrite Num_sub_eq. reflexivity.
Qed.

(** ** Field updates *)

Lemma type_fire node : type (userData (fire node)) = type (userData node).
Proof. unfold fire. simpl. destruct (String.eqb _ _); reflexivity. Qed.

Lemma position_fire node : position (fire node) = position node.
Proof. unfold fire. simpl. destruct (String.eqb _ _); reflexivity. Qed.

Lemma triggered_fire node : hasBeenTriggered (userData (fire node)) = true.
Proof. unfold fire. simpl. destruct (String.eqb _ _); reflexivity. Qed.

Lemma emissive_fire node : emissive (material (fire node)) = white.
Proof. unfold fire. simpl. destruct (String.eqb _ _); reflexivity. Qed.

Lemma userData_decayNode node : userData (decayNode node) = userData node.
Proof.
  unfold decayNode.
  repeat match goal with |- context [if ?c then _ else _] => destruct c end;
    reflexivity.
Qed.

Lemma position_decayNode node : position (decayNode node) = position node.
Proof.
  unfold decayNode.
  repeat match goal with |- context [if ?c then _ else _] => destruct c end;
    reflexivity.
Qed.

(** ** The detection loop *)

Lemma detect_spec wandX buffers nodes ctx :
  detect wandX buffers nodes ctx =
  (fmap (touch wandX) nodes, fmap (inReach wandX) nodes,
   fold_left (dispatch wandX buffers) nodes ctx).
Proof.
  revert ctx. induction nodes as [|node rest IH]; intros ctx; simpl.
  - reflexivity.
  - unfold touch at 1, dispatch at 2. destruct (inReach wandX node).
    + rewrite type_fire, IH. reflexivity.
    + rewrite IH. reflexivity.
Qed.

(** ** Placement *)

Lemma newNodeOf_unknown ty : ~ recognised ty -> newNodeOf ty = None.
Proof.
  intros Hty. unfold newNodeOf.
  destruct (String.eqb_spec ty "synth") as [-> | _];
    [exfalso; apply Hty; left; reflexivity|].
  destruct (String.eqb_spec ty "pluck") as [-> | _];
    [exfalso; apply Hty; right; left; reflexivity|].
  destruct (String.eqb_spec ty "kick") as [-> | _];
    [exfalso; apply Hty; right; right; reflexivity|].
  reflexivity.
Qed.

Lemma newNodeOf_known ty :
  recognised ty ->
  exists geo mat, newNodeOf ty = Some (THREE_Mesh geo mat)
    /\ Color.setHex (Color.getHex (emissive mat)) = emissive mat.
Proof.
  intros [-> | [-> | ->]].
  - exists TorusKnotGeometry, synthMat. split; reflexivity.
  - exists ConeGeometry, pluckMat. split; reflexivity.
  - exists BoxGeometry, kickMat. split; reflexivity.
Qed.

Lemma currentTypeOf_recognised dom : recognised (currentTypeOf dom).
Proof.
  unfold currentTypeOf, recognised.
  destruct (classListContains dom "kick-btn" "active"),
           (classListContains dom "pluck-btn" "active"); auto.
Qed.

Lemma highlight_at_baseline node :
  emissive (material node) = baseline node -> hasHighlight node 0.
Proof.
  intros H. unfold hasHighlight. rewrite H. repeat split; ring.
Qed.

(** C9. A placement whose instrument type is none of synth, pluck and kick
    fails at once with an error, the registry left as it was: no node, whole
    or partial, is appended.  For a recognised type exactly one node is
    appended, of that type, untriggered, its highlight 0 (emissive colour at
    its baseline) and its scale 1. *)
Theorem placement_fails_fast_or_appends_fresh_node
    (ty : string) (point : Vector3.t) (refs : Refs) :
  (~ recognised ty -> placeInstrumentAs ty point refs = TypeError refs)
  /\ (recognised ty ->
      exists node,
        placeInstrumentAs ty point refs
          = Ok (set_soundNodes (soundNodes refs ++ [node]) refs)
        /\ type (userData node) = ty
        /\ hasBeenTriggered (userData node) = false
        /\ emissive (material node) = baseline node
        /\ hasHighlight node 0
        /\ scale node = Vector3.mk 1 1 1
        /\ Vector3.x (position node) = Vector3.x point).
Proof.
  split.
  - intros Hty. unfold placeInstrumentAs. rewrite newNodeOf_unknown by assumption.
    reflexivity.
  - intros Hty. destruct (newNodeOf_known ty Hty) as (geo & mat & Hnew & Hhex).
    unfold placeInstrumentAs. rewrite Hnew. eexists. split; [reflexivity|].
    assert (Hbase : forall p q c,
               baseline (set_userData
                           {| type := ty;
                              originalEmissive := Color.getHex (emissive mat);
                              hasBeenTriggered := false |}
                           (set_castShadow c (set_position p (set_position q
                              (THREE_Mesh geo mat)))))
               = emissive mat)
      by (intros; exact Hhex).
    refine (conj eq_refl (conj eq_refl (conj _ (conj _ (conj eq_refl eq_refl))))).
    + symmetry. apply Hbase.
    + apply highlight_at_baseline. symmetry. apply Hbase.
Qed.

Lemma placement_fails_fast_or_appends_fresh_node_witness :
  placeInstrumentAs "drum" (Vector3.mk 3 0 4) startRefs = TypeError startRefs
  /\ exists node,
       placeInstrumentAs "kick" (Vector3.mk 3 0 4) startRefs
         = Ok (set_soundNodes (soundNodes startRefs ++ [node]) startRefs)
       /\ type (userData node) = "kick"
       /\ hasBeenTriggered (userData node) = false
       /\ emissive (material node) = baseline node
       /\ hasHighlight node 0
       /\ scale node = Vector3.mk 1 1 1
       /\ Vector3.x (position node) = 3.
Proof.
  split.
  - apply (proj1 (placement_fails_fast_or_appends_fresh_node
                    "drum" (Vector3.mk 3 0 4) startRefs)).
    unfold recognised. intros [H|[H|H]]; discriminate H.
  - apply (proj2 (placement_fails_fast_or_appends_fresh_node
                    "kick" (Vector3.mk 3 0 4) startRefs)).
    right; right; reflexivity.
Defined.

(** C10. When neither the Pluck nor the Kick selector is active, also when
    no selector is active or the buttons do not exist, the placement
    succeeds and the node it appends is a Synth. *)
Theorem placement_defaults_to_synth (dom : DOM) (point : Vector3.t) (refs : Refs) :
  classListContains dom "pluck-btn" "active" = false ->
  classListContains dom "kick-btn" "active" = false ->
  exists node,
    placeInstrument dom point refs
      = Ok (set_soundNodes (soundNodes refs ++ [node]) refs)
    /\ type (userData node) = "synth"
    /\ geometry node = TorusKnotGeometry
    /\ material node = synthMat.
Proof.
  intros Hp Hk. unfold placeInstrument, currentTypeOf. rewrite Hp, Hk.
  eexists. split; [reflexivity|]. repeat split.
Qed.

Lemma placement_defaults_to_synth_witness :
  exists node,
    placeInstrument ∅ (Vector3.mk 3 0 4) startRefs
      = Ok (set_soundNodes (soundNodes startRefs ++ [node]) startRefs)
    /\ type (userData node) = "synth"
    /\ geometry node = TorusKnotGeometry
    /\ material node = synthMat.
Proof.
  apply (placement_defaults_to_synth ∅ (Vector3.mk 3 0 4) startRefs);
    reflexivity.
Defined.

(** ** One frame *)

(** The engine at the moment the detection of a playing frame starts: the
    nodes decayed, the wand advanced and wrapped, the flags cleared by the
    wrap. *)
Lemma animate_playing dom refs wand :
  ready refs -> playing dom -> wandGroup refs = Some wand ->
  animate dom refs =
    (let wn := wrapAround (advanceWand wand) (fmap decayNode (soundNodes refs)) in
     (set_audioContext
        (fold_left (dispatch (Vector3.x wn.1) (soundBuffers refs)) wn.2
           (audioContext refs))
        (set_soundNodes (fmap (touch (Vector3.x wn.1)) wn.2)
           (set_wandGroup (Some wn.1)
              (set_soundNodes (fmap decayNode (soundNodes refs)) refs))),
      fmap (inReach (Vector3.x wn.1)) wn.2)).
Proof.
  unfold ready, playing. intros Hr Hp Hw. unfold animate.
  rewrite Hr. cbn [wandGroup set_soundNodes soundNodes soundBuffers audioContext].
  rewrite Hw, Hp.
  destruct (wrapAround _ _) as [wand2 nodes2]. rewrite detect_spec. reflexivity.
Qed.

Lemma animate_stopped dom refs :
  ready refs -> ~ playing dom ->
  animate dom refs = (set_soundNodes (fmap decayNode (soundNodes refs)) refs, []).
Proof.
  unfold ready, playing. intros Hr Hp. unfold animate. rewrite Hr.
  cbn [wandGroup set_soundNodes].
  destruct (wandGroup refs); [|reflexivity].
  destruct (isGamePlaying dom); [congruence|reflexivity].
Qed.

Lemma animate_not_ready dom refs : ~ ready refs -> animate dom refs = (refs, []).
Proof.
  unfold ready. intros Hr. unfold animate.
  destruct (notReady refs); [reflexivity|congruence].
Qed.

Lemma advanceWand_x wand : Vector3.x (advanceWand wand) == Vector3.x wand + (1 # 2).
Proof. unfold advanceWand. simpl. apply Num_add_eq. Qed.

Lemma pastEdge_spec wand : pastEdge wand = true <-> 100 < Vector3.x wand.
Proof. unfold pastEdge, Num.gt. rewrite right_edge. apply Num_lt_spec. Qed.

Lemma pastEdge_false wand : pastEdge wand = false <-> Vector3.x wand <= 100.
Proof. unfold pastEdge, Num.gt. rewrite right_edge. apply Num_lt_false. Qed.

Lemma wrapAround_wraps wand nodes :
  100 < Vector3.x wand ->
  wrapAround wand nodes
  = (Vector3.set_x (-100) wand, fmap (set_hasBeenTriggered false) nodes).
Proof.
  intros H. apply pastEdge_spec in H. unfold wrapAround. rewrite H, left_edge.
  reflexivity.
Qed.

Lemma wrapAround_stays wand nodes :
  Vector3.x wand <= 100 -> wrapAround wand nodes = (wand, nodes).
Proof.
  intros H. apply pastEdge_false in H. unfold wrapAround. rewrite H. reflexivity.
Qed.

Lemma ready_preserved dom refs : ready refs -> ready (animate dom refs).1.
Proof.
  unfold ready, animate. intros Hr. rewrite Hr. cbn [wandGroup set_soundNodes].
  destruct (wandGroup refs) as [wand|]; [|exact Hr].
  destruct (isGamePlaying dom); [|exact Hr].
  cbn [soundNodes soundBuffers audioContext].
  destruct (wrapAround _ _) as [wand2 nodes2].
  destruct (detect _ _ _ _) as [[nodes3 fired] ctx]. exact Hr.
Qed.

(** C2. In a playing frame the wand advances by 0.5.  If that leaves it
    within the plane, it stays there.  If it has passed the right edge
    (100), the wand is put back on the left edge (-100) and, in the same
    frame and before the detection, every node's flag is cleared: the nodes
    the detection receives are all untriggered, and the frame ends with the
    outcome of the detection on exactly these nodes, so that a node is
    flagged at the end of a wrapping frame only if this frame's detection
    found it within reach of the left edge. *)
Theorem wrap_clears_every_flag_before_detection
    (dom : DOM) (refs : Refs) (wand : Vector3.t) :
  ready refs -> playing dom -> wandGroup refs = Some wand ->
  let wand1 := advanceWand wand in
  let out := animate dom refs in
  Vector3.x wand1 == Vector3.x wand + (1 # 2)
  /\ (Vector3.x wand1 <= 100 -> wandGroup out.1 = Some wand1)
  /\ (100 < Vector3.x wand1 ->
      let nodes2 := fmap (set_hasBeenTriggered false)
                      (fmap decayNode (soundNodes refs)) in
      wrapAround wand1 (fmap decayNode (soundNodes refs))
        = (Vector3.set_x (-100) wand1, nodes2)
      /\ Forall (λ node, hasBeenTriggered (userData node) = false) nodes2
      /\ wandGroup out.1 = Some (Vector3.set_x (-100) wand1)
      /\ soundNodes out.1 = fmap (touch (-100)) nodes2
      /\ out.2 = fmap (inReach (-100)) nodes2
      /\ (forall i node, soundNodes out.1 !! i = Some node ->
            hasBeenTriggered (userData node) = true ->
            Qabs (Vector3.x (position node) - -100) < 1
            /\ out.2 !! i = Some true)).
Proof.
  intros Hr Hp Hw wand1 out. subst out.
  rewrite (animate_playing dom refs wand Hr Hp Hw). fold wand1.
  split; [apply advanceWand_x|]. split.
  - intros Hle. rewrite (wrapAround_stays _ _ Hle). reflexivity.
  - intros Hgt nodes2. rewrite (wrapAround_wraps _ _ Hgt). fold nodes2.
    cbn [fst snd Vector3.x Vector3.set_x wandGroup set_audioContext
         set_soundNodes set_wandGroup soundNodes].
    assert (Hall : Forall (λ node, hasBeenTriggered (userData node) = false) nodes2).
    { subst nodes2. apply Forall_forall. intros node Hin.
      apply list_elem_of_fmap in Hin as (node0 & -> & _). reflexivity. }
    repeat (split; [first [reflexivity | exact Hall]|]).
    intros i node Hi Hflag.
    rewrite list_lookup_fmap in Hi. rewrite list_lookup_fmap.
    destruct (nodes2 !! i) as [node2|] eqn:E; [|discriminate Hi].
    simpl in Hi. injection Hi as <-. simpl.
    assert (H2 : hasBeenTriggered (userData node2) = false).
    { rewrite Forall_forall in Hall. apply Hall.
      apply list_elem_of_lookup. eauto. }
    unfold touch in *. destruct (inReach (-100) node2) eqn:R.
    + split; [|reflexivity]. apply inReach_spec in R as [_ R].
      rewrite position_fire. exact R.
    + congruence.
Qed.

Lemma white_channels : white = Color.mk 1 1 1.
Proof. reflexivity. Qed.

Lemma highlight_at_white node :
  emissive (material node) = white -> hasHighlight node 1.
Proof.
  intros H. unfold hasHighlight. rewrite H, white_channels. simpl.
  repeat split; ring.
Qed.

Lemma scale_fire node :
  scale (fire node)
  = if String.eqb (type (userData node)) "kick"
    then Vector3.mk (6 # 5) (6 # 5) (6 # 5) else scale node.
Proof. unfold fire. simpl. destruct (String.eqb _ _); reflexivity. Qed.

(** The node the detection of a playing frame receives for [node0]. *)
Lemma detection_input wand nodes i node0 :
  nodes !! i = Some node0 ->
  (wrapAround (advanceWand wand) (decayNode <$> nodes)).2 !! i
  = Some (if pastEdge (advanceWand wand)
          then set_hasBeenTriggered false (decayNode node0)
          else decayNode node0).
Proof.
  intros Hi. unfold wrapAround. destruct (pastEdge _); simpl;
    rewrite ?list_lookup_fmap, Hi; reflexivity.
Qed.



(** ** The order of a frame *)

(** C3, as the specification words it, fails: were the decay the last step
    of the frame, a Kick triggered in it would end the frame at scale 1.18;
    the frame ends with the Kick at scale 1.2, the impulse untouched. *)
Lemma decay_is_not_the_last_step :
  animate playingDom kickAtEdge <> animateDecayLast playingDom kickAtEdge
  /\ scale <$> soundNodes (animate playingDom kickAtEdge).1
     = [Vector3.mk (6 # 5) (6 # 5) (6 # 5)]
  /\ scale <$> soundNodes (animateDecayLast playingDom kickAtEdge).1
     = [Vector3.mk (59 # 50) (59 # 50) (59 # 50)].
Proof.
  assert (H1 : scale <$> soundNodes (animate playingDom kickAtEdge).1
               = [Vector3.mk (6 # 5) (6 # 5) (6 # 5)]) by (vm_compute; reflexivity).
  assert (H2 : scale <$> soundNodes (animateDecayLast playingDom kickAtEdge).1
               = [Vector3.mk (59 # 50) (59 # 50) (59 # 50)])
    by (vm_compute; reflexivity).
  split; [|split; assumption].
  intros H. rewrite H, H2 in H1. discriminate H1.
Qed.

(** C3, amended.  Every frame first decays every node, playing or not.  A
    playing frame then advances the wand, wraps it and clears the flags, and
    runs the detection, which applies the impulse of each trigger (and
    dispatches its sound) on the decayed nodes; nothing decays after the
    detection, so a node triggered in the frame ends it pure white and, for a
    Kick, at scale 1.2.  A stopped frame only decays. *)
Theorem decay_then_wand_then_detection (dom : DOM) (refs : Refs) :
  ready refs ->
  let decayed := decayNode <$> soundNodes refs in
  let out := animate dom refs in
  (forall wand, playing dom -> wandGroup refs = Some wand ->
     let wn := wrapAround (advanceWand wand) decayed in
     wandGroup out.1 = Some wn.1
     /\ soundNodes out.1 = touch (Vector3.x wn.1) <$> wn.2
     /\ out.2 = inReach (Vector3.x wn.1) <$> wn.2
     /\ audioContext out.1
        = fold_left (dispatch (Vector3.x wn.1) (soundBuffers refs)) wn.2
            (audioContext refs)
     /\ (forall i node, soundNodes out.1 !! i = Some node ->
           out.2 !! i = Some true ->
           emissive (material node) = white
           /\ (type (userData node) = "kick" ->
               scale node = Vector3.mk (6 # 5) (6 # 5) (6 # 5))))
  /\ (~ playing dom ->
      out = (set_soundNodes decayed refs, [])).
Proof.
  intros Hr decayed out. subst out. split.
  - intros wand Hp Hw wn.
    rewrite (animate_playing dom refs wand Hr Hp Hw). fold decayed. fold wn.
    cbn [fst snd wandGroup set_audioContext set_soundNodes set_wandGroup
         soundNodes audioContext].
    repeat (split; [reflexivity|]).
    intros i node Hi Hf.
    rewrite list_lookup_fmap in Hi. rewrite list_lookup_fmap in Hf.
    destruct (wn.2 !! i) as [node2|]; [|discriminate Hi].
    simpl in Hi, Hf. injection Hi as <-. injection Hf as Hf.
    unfold touch. rewrite Hf. split; [apply emissive_fire|].
    rewrite type_fire, scale_fire. intros ->. reflexivity.
  - intros Hp. apply animate_stopped; assumption.
Qed.

Lemma ready_kickAtEdge : ready kickAtEdge.
Proof. reflexivity. Qed.

Lemma playing_playingDom : playing playingDom.
Proof. reflexivity. Qed.

Lemma stopped_stoppedDom : ~ playing stoppedDom.
Proof. unfold playing. vm_compute. discriminate. Qed.

Lemma decay_then_wand_then_detection_witness :
  animate stoppedDom kickAtEdge
    = (set_soundNodes (decayNode <$> soundNodes kickAtEdge) kickAtEdge, [])
  /\ soundNodes (animate playingDom kickAtEdge).1
     = touch (-199 # 2) <$> (decayNode <$> soundNodes kickAtEdge)
  /\ (animate playingDom kickAtEdge).2 = [true].
Proof.
  split.
  - apply (proj2 (decay_then_wand_then_detection stoppedDom kickAtEdge
                    ready_kickAtEdge)).
    exact stopped_stoppedDom.
  - destruct (proj1 (decay_then_wand_then_detection playingDom kickAtEdge
                       ready_kickAtEdge)
                (Vector3.mk (-100) 0 0) playing_playingDom eq_refl)
      as (_ & Hnodes & Hfired & _).
    split; [exact Hnodes | exact Hfired].
Defined.

Lemma wrap_clears_every_flag_before_detection_witness :
  wandGroup (animate playingDom endOfSweep).1 = Some (Vector3.mk (-100) 0 0)
  /\ Forall (λ node, hasBeenTriggered (userData node) = false)
       (set_hasBeenTriggered false <$> (decayNode <$> soundNodes endOfSweep))
  /\ soundNodes (animate playingDom endOfSweep).1
     = touch (-100)
         <$> (set_hasBeenTriggered false <$> (decayNode <$> soundNodes endOfSweep))
  /\ (animate playingDom endOfSweep).2 = [false; false; false].
Proof.
  destruct (wrap_clears_every_flag_before_detection playingDom endOfSweep
              (Vector3.mk 100 0 0)) as (_ & _ & H); [reflexivity..|].
  destruct H as (_ & Hall & Hw & Hn & Hf & _); [reflexivity|].
  split; [exact Hw|]. split; [exact Hall|]. split; [exact Hn | exact Hf].
Defined.


(** ** Iterated decay *)

Lemma iter_decay_succ k (nodes : list Mesh) :
  Nat.iter k decayNode <$> (decayNode <$> nodes) = Nat.iter (S k) decayNode <$> nodes.
Proof.
  rewrite <- list_fmap_compose. apply list_fmap_ext. intros _ node _.
  simpl. symmetry. apply (Nat.iter_succ_r k decayNode node).
Qed.

Lemma userData_iter_decay k node :
  userData (Nat.iter k decayNode node) = userData node.
Proof.
  induction k as [|k IH]; [reflexivity|].
  simpl. rewrite userData_decayNode. exact IH.
Qed.

(** ** Audio dispatch *)

Lemma dispatch_absent wandX buffers nodes ctx :
  (forall node, node ∈ nodes -> buffers !! type (userData node) = None) ->
  fold_left (dispatch wandX buffers) nodes ctx = ctx.
Proof.
  revert ctx. induction nodes as [|node rest IH]; intros ctx Habs; [reflexivity|].
  simpl. unfold dispatch at 2. rewrite (Habs node) by apply list_elem_of_here.
  assert (Hsame : (if inReach wandX node then playSound None ctx else ctx) = ctx)
    by (destruct (inReach wandX node); reflexivity).
  rewrite Hsame. apply IH. intros n Hn. apply Habs. apply list_elem_of_further, Hn.
Qed.

Lemma wrapAround_types wand nodes node :
  node ∈ (wrapAround wand (decayNode <$> nodes)).2 ->
  exists node0, node0 ∈ nodes /\ type (userData node) = type (userData node0).
Proof.
  unfold wrapAround. destruct (pastEdge wand); simpl; intros Hin.
  - apply list_elem_of_fmap in Hin as (n1 & -> & Hin).
    apply list_elem_of_fmap in Hin as (n0 & -> & Hin).
    exists n0. split; [exact Hin|]. simpl. rewrite userData_decayNode. reflexivity.
  - apply list_elem_of_fmap in Hin as (n0 & -> & Hin).
    exists n0. split; [exact Hin|]. rewrite userData_decayNode. reflexivity.
Qed.

Lemma animate_ignores_buffers dom refs buffers :
  soundNodes (animate dom (set_soundBuffers buffers refs)).1
    = soundNodes (animate dom refs).1
  /\ wandGroup (animate dom (set_soundBuffers buffers refs)).1
     = wandGroup (animate dom refs).1
  /\ (animate dom (set_soundBuffers buffers refs)).2 = (animate dom refs).2.
Proof.
  unfold animate.
  change (notReady (set_soundBuffers buffers refs)) with (notReady refs).
  destruct (notReady refs); [repeat split|].
  cbn [wandGroup set_soundNodes set_soundBuffers soundNodes soundBuffers audioContext].
  destruct (wandGroup refs) as [wand|]; [|repeat split].
  destruct (isGamePlaying dom); [|repeat split].
  destruct (wrapAround _ _) as [wand2 nodes2].
  rewrite !detect_spec. repeat split.
Qed.

(** C8. A sound whose buffer is absent is dropped in silence: [playSound]
    returns with the audio context as it was (nothing started, nothing
    queued, no error), so a frame in which no node's type has a buffer
    leaves the audio context untouched.  The nodes, the wand and the
    triggers of a frame are the same whatever the sound bank holds.  In
    particular, with the buffer of its type absent, a node that is
    untriggered and within reach of the wand is triggered and ends the frame
    with its flag set, and a frame that wraps ends with the flag of every
    node out of reach of the left edge cleared, set before or not. *)
Theorem absent_buffer_is_dropped_silently
    (dom : DOM) (refs : Refs) (ctx : option AudioContext) :
  playSound None ctx = ctx
  /\ ((forall node, node ∈ soundNodes refs ->
         soundBuffers refs !! type (userData node) = None) ->
      audioContext (animate dom refs).1 = audioContext refs)
  /\ (forall buffers,
        soundNodes (animate dom (set_soundBuffers buffers refs)).1
          = soundNodes (animate dom refs).1
        /\ wandGroup (animate dom (set_soundBuffers buffers refs)).1
           = wandGroup (animate dom refs).1
        /\ (animate dom (set_soundBuffers buffers refs)).2 = (animate dom refs).2)
  /\ (forall wand i node0,
        ready refs -> playing dom -> wandGroup refs = Some wand ->
        soundNodes refs !! i = Some node0 ->
        soundBuffers refs !! type (userData node0) = None ->
        let wraps := pastEdge (advanceWand wand) in
        let wandX := Vector3.x (wrapAround (advanceWand wand)
                                  (decayNode <$> soundNodes refs)).1 in
        let distance := Qabs (Vector3.x (position node0) - wandX) in
        exists node,
          soundNodes (animate dom refs).1 !! i = Some node
          /\ (forall c, playSound (soundBuffers refs !! type (userData node)) c = c)
          /\ (wraps || negb (hasBeenTriggered (userData node0)) = true ->
              distance < 1 - (1 # 18014398509481984) ->
              (animate dom refs).2 !! i = Some true
              /\ hasBeenTriggered (userData node) = true)
          /\ (wraps = true -> 1 <= distance ->
              (animate dom refs).2 !! i = Some false
              /\ hasBeenTriggered (userData node) = false)).
Proof.
  split; [reflexivity|]. split; [|split; [intros buffers; apply animate_ignores_buffers|]].
  - intros Habs. unfold animate. destruct (notReady refs); [reflexivity|].
    cbn [wandGroup set_soundNodes soundNodes soundBuffers audioContext].
    destruct (wandGroup refs) as [wand|]; [|reflexivity].
    destruct (isGamePlaying dom); [|reflexivity].
    pose proof (wrapAround_types (advanceWand wand) (soundNodes refs)) as Hty.
    destruct (wrapAround _ _) as [wand2 nodes2]. rewrite detect_spec.
    cbn [fst audioContext set_audioContext]. apply dispatch_absent.
    intros node Hin. destruct (Hty node Hin) as (node0 & Hin0 & ->).
    apply Habs, Hin0.
  - intros wand i node0 Hr Hp Hw Hi Habs wraps wandX distance.
    rewrite (animate_playing dom refs wand Hr Hp Hw).
    cbn [fst snd wandGroup set_audioContext set_soundNodes set_wandGroup soundNodes].
    fold wandX.
    pose proof (detection_input wand (soundNodes refs) i node0 Hi) as Hin.
    fold wraps in Hin.
    set (node2 := if wraps then set_hasBeenTriggered false (decayNode node0)
                  else decayNode node0) in *.
    assert (Hpos : position node2 = position node0).
    { subst node2. destruct wraps; simpl; apply position_decayNode. }
    assert (Hty : type (userData node2) = type (userData node0)).
    { subst node2. destruct wraps; simpl; rewrite userData_decayNode; reflexivity. }
    assert (Hflag : hasBeenTriggered (userData node2)
                    = negb (wraps || negb (hasBeenTriggered (userData node0)))).
    { subst node2. destruct wraps; simpl; rewrite ?userData_decayNode;
        [reflexivity | symmetry; apply negb_involutive]. }
    rewrite !list_lookup_fmap, Hin. cbn [fmap option_fmap option_map].
    pose proof (inReach_spec wandX node2) as Hreach. rewrite Hpos, Hflag in Hreach.
    fold distance in Hreach.
    eexists. split; [reflexivity|]. split; [|split].
    + intros c. unfold touch.
      destruct (inReach wandX node2); rewrite ?type_fire, Hty, Habs; reflexivity.
    + intros Hu Hnear.
      assert (R : inReach wandX node2 = true).
      { apply Hreach. rewrite Hu. split; [reflexivity|].
        eapply Qlt_trans; [exact Hnear | reflexivity]. }
      unfold touch. rewrite R. split; [reflexivity | apply triggered_fire].
    + intros Hwr Hfar.
      assert (R : inReach wandX node2 = false).
      { destruct (inReach wandX node2); [|reflexivity].
        destruct (proj1 Hreach eq_refl) as [_ Hnear].
        exfalso. apply (Qlt_not_le _ _ Hnear Hfar). }
      unfold touch. rewrite R. split; [reflexivity|].
      rewrite Hflag, Hwr. reflexivity.
Qed.

Lemma absent_buffer_is_dropped_silently_witness :
  audioContext (animate playingDom kickAtEdge).1 = Some {| started := [] |}
  /\ (animate playingDom (set_soundBuffers loadedBuffers kickAtEdge)).2
     = (animate playingDom kickAtEdge).2
  /\ soundNodes (animate playingDom (set_soundBuffers loadedBuffers kickAtEdge)).1
     = soundNodes (animate playingDom kickAtEdge).1
  /\ (exists node,
        soundNodes (animate playingDom kickAtEdge).1 !! 0%nat = Some node
        /\ (animate playingDom kickAtEdge).2 !! 0%nat = Some true
        /\ hasBeenTriggered (userData node) = true)
  /\ (exists node0 node,
        soundNodes endOfSweep !! 0%nat = Some node0
        /\ hasBeenTriggered (userData node0) = true
        /\ soundNodes (animate playingDom endOfSweep).1 !! 0%nat = Some node
        /\ (animate playingDom endOfSweep).2 !! 0%nat = Some false
        /\ hasBeenTriggered (userData node) = false).
Proof.
  destruct (absent_buffer_is_dropped_silently playingDom kickAtEdge None)
    as (_ & Hctx & Hsame & Hflags).
  destruct (absent_buffer_is_dropped_silently playingDom endOfSweep None)
    as (_ & _ & _ & Hwrap).
  destruct (Hsame loadedBuffers) as (Hn & _ & Hf).
  split; [apply Hctx; intros node _; reflexivity|].
  split; [exact Hf|]. split; [exact Hn|]. split.
  - destruct (soundNodes kickAtEdge !! 0%nat) as [node0|] eqn:Hi;
      [|discriminate Hi].
    destruct (Hflags (Vector3.mk (-100) 0 0) 0%nat node0 ready_kickAtEdge
                playing_playingDom eq_refl Hi)
      as (node & Hnode & _ & Hset & _).
    { injection Hi as <-. reflexivity. }
    injection Hi as Hi.
    destruct Hset as [Hfired Hflag].
    { rewrite <- Hi. reflexivity. }
    { rewrite <- Hi. reflexivity. }
    exists node. split; [exact Hnode|]. split; [exact Hfired | exact Hflag].
  - destruct (soundNodes endOfSweep !! 0%nat) as [node0|] eqn:Hi;
      [|discriminate Hi].
    destruct (Hwrap (Vector3.mk 100 0 0) 0%nat node0 eq_refl
                playing_playingDom eq_refl Hi)
      as (node & Hnode & _ & _ & Hclear).
    { injection Hi as <-. reflexivity. }
    injection Hi as Hi.
    destruct Hclear as [Hfired Hflag].
    { reflexivity. }
    { rewrite <- Hi. discriminate. }
    exists node0, node. split; [reflexivity|].
    split; [rewrite <- Hi; reflexivity|].
    split; [exact Hnode|]. split; [exact Hfired | exact Hflag].
Defined.

(** ** The decay of the visual feedback *)

Lemma look_decayNode n1 n2 : look n1 = look n2 -> look (decayNode n1) = look (decayNode n2).
Proof.
  destruct n1 as [g1 m1 p1 r1 s1 c1 [t1 o1 f1]], n2 as [g2 m2 p2 r2 s2 c2 [t2 o2 f2]].
  unfold look. cbn [material scale userData type originalEmissive].
  intros H. injection H as -> -> -> ->.
  unfold decayNode.
  cbn [userData type originalEmissive material emissive scale rotation
       set_rotation set_emissive set_scale].
  destruct (String.eqb t2 "synth" || String.eqb t2 "pluck");
    cbn [userData type originalEmissive material emissive scale rotation
         set_rotation set_emissive set_scale];
    destruct (negb (Color.getHex (emissive m2) =? o2)%Z);
    cbn [userData type originalEmissive material emissive scale rotation
         set_rotation set_emissive set_scale];
    destruct (String.eqb t2 "kick" && Num.gt (Vector3.x s2) 1);
    reflexivity.
Qed.

Lemma look_iter_decay k n1 n2 :
  look n1 = look n2 -> look (Nat.iter k decayNode n1) = look (Nat.iter k decayNode n2).
Proof.
  intros H. induction k as [|k IH]; [exact H|]. simpl. apply look_decayNode, IH.
Qed.

Lemma look_set_hasBeenTriggered v node : look (set_hasBeenTriggered v node) = look node.
Proof. reflexivity. Qed.

(** A frame decays every node it does not trigger, whether it plays or not. *)
Lemma untriggered_node_decays dom refs i node0 :
  ready refs ->
  soundNodes refs !! i = Some node0 ->
  (animate dom refs).2 !! i <> Some true ->
  exists node, soundNodes (animate dom refs).1 !! i = Some node
    /\ look node = look (decayNode node0).
Proof.
  intros Hr Hi Hf. unfold ready in Hr. unfold animate in *. rewrite Hr in *.
  cbn [wandGroup set_soundNodes soundNodes soundBuffers audioContext] in *.
  assert (Hdec : (decayNode <$> soundNodes refs) !! i = Some (decayNode node0))
    by (rewrite list_lookup_fmap, Hi; reflexivity).
  destruct (wandGroup refs) as [wand|]; [|eauto].
  destruct (isGamePlaying dom); [|eauto].
  pose proof (detection_input wand (soundNodes refs) i node0 Hi) as Hin.
  destruct (wrapAround _ _) as [wand2 nodes2]. rewrite detect_spec in *.
  cbn [fst snd soundNodes set_audioContext set_soundNodes] in *.
  rewrite list_lookup_fmap, Hin. rewrite list_lookup_fmap, Hin in Hf.
  cbn [fmap option_fmap option_map] in *.
  unfold touch. destruct (inReach _ _); [congruence|].
  eexists. split; [reflexivity|]. destruct (pastEdge _); reflexivity.
Qed.

Lemma run_cons dom doms refs :
  run (dom :: doms) refs
  = ((run doms (animate dom refs).1).1,
     (animate dom refs).2 :: (run doms (animate dom refs).1).2).
Proof.
  simpl. destruct (animate dom refs) as [refs' fired]. simpl.
  destruct (run doms refs') as [refs'' log]. reflexivity.
Qed.

Lemma untriggered_node_decays_run doms refs i node0 :
  ready refs ->
  soundNodes refs !! i = Some node0 ->
  Forall (λ fired : list bool, fired !! i <> Some true) (run doms refs).2 ->
  exists node, soundNodes (run doms refs).1 !! i = Some node
    /\ look node = look (Nat.iter (length doms) decayNode node0).
Proof.
  revert refs node0. induction doms as [|dom doms IH]; intros refs node0 Hr Hi Hf.
  - simpl. eauto.
  - rewrite run_cons in *. cbn [fst snd] in *.
    apply Forall_cons in Hf as [Hf1 Hf].
    destruct (untriggered_node_decays dom refs i node0 Hr Hi Hf1) as (node1 & Hi1 & Hl1).
    destruct (IH _ node1 (ready_preserved dom refs Hr) Hi1 Hf) as (node & Hn & Hl).
    exists node. split; [exact Hn|]. rewrite Hl.
    cbn [length]. rewrite Nat.iter_succ_r. apply look_iter_decay, Hl1.
Qed.

Ltac decay_cases ty m o s :=
  unfold decayNode;
  cbn [userData type originalEmissive material emissive scale rotation
       set_rotation set_emissive set_scale];
  destruct (String.eqb ty "synth" || String.eqb ty "pluck");
  cbn [userData type originalEmissive material emissive scale rotation
       set_rotation set_emissive set_scale];
  destruct (negb (Color.getHex (emissive m) =? o)%Z);
  cbn [userData type originalEmissive material emissive scale rotation
       set_rotation set_emissive set_scale];
  destruct (String.eqb ty "kick" && Num.gt (Vector3.x s) 1);
  try reflexivity.

Lemma emissive_decayNode node :
  emissive (material (decayNode node))
  = if flashVisible node
    then Color.lerp (emissive (material node)) (baseline node) (1 # 10)
    else emissive (material node).
Proof.
  destruct node as [ge m p r s c [ty o f]]. unfold flashVisible, baseline.
  decay_cases ty m o s.
Qed.

Lemma scale_decayNode node :
  scale (decayNode node)
  = if String.eqb (type (userData node)) "kick" && Num.gt (Vector3.x (scale node)) 1
    then Vector3.lerp (scale node) (Vector3.mk 1 1 1) (1 # 10)
    else scale node.
Proof.
  destruct node as [ge m p r s c [ty o f]]. decay_cases ty m o s.
Qed.

Lemma baseline_decayNode node : baseline (decayNode node) = baseline node.
Proof. unfold baseline. rewrite userData_decayNode. reflexivity. Qed.

Lemma lerp_step c o h :
  c == o + h * (1 - o) ->
  Num.add c (Num.mul (Num.sub o c) (1 # 10)) == o + (9 # 10) * h * (1 - o).
Proof.
  intros H. rewrite Num_add_eq, Num_mul_eq, Num_sub_eq, H. ring.
Qed.

(** One frame of decay takes a tenth off the highlight, as long as the flash
    still shows; afterwards the colour is left alone. *)
Lemma highlight_decays node h :
  hasHighlight node h -> flashVisible node = true ->
  hasHighlight (decayNode node) ((9 # 10) * h).
Proof.
  unfold hasHighlight. intros (Hr & Hg & Hb) Hv.
  rewrite emissive_decayNode, Hv, baseline_decayNode. unfold Color.lerp. simpl.
  repeat split; apply lerp_step; assumption.
Qed.


Lemma pow_succ (q : Q) k : q ^ Z.of_nat (S k) == q * q ^ Z.of_nat k.
Proof.
  rewrite Nat2Z.inj_succ. unfold Z.succ.
  rewrite Qpower_plus' by lia. simpl. ring.
Qed.


(** The scale of a Kick, uniform and not below 1, loses a tenth of its
    excess over 1 in every frame; the scale of another node is never
    touched. *)
Lemma scale_iter_kick k node s :
  type (userData node) = "kick" -> scale node = Vector3.mk s s s -> 1 <= s ->
  exists s', scale (Nat.iter k decayNode node) = Vector3.mk s' s' s'
    /\ s' - 1 == (9 # 10) ^ Z.of_nat k * (s - 1) /\ 1 <= s'.
Proof.
  intros Hty Hs Hle. induction k as [|k IH].
  - exists s. simpl. split; [exact Hs|]. split; [ring | exact Hle].
  - destruct IH as (s1 & Hs1 & Hlaw & Hle1).
    rewrite Nat.iter_succ. rewrite scale_decayNode, userData_iter_decay, Hty, Hs1.
    cbn [String.eqb Ascii.eqb Bool.eqb andb Vector3.x].
    unfold Num.gt. destruct (Num.lt 1 s1) eqn:E.
    + apply Num_lt_spec in E. unfold Vector3.lerp.
      cbn [Vector3.x Vector3.y Vector3.z]. eexists. split; [reflexivity|].
      rewrite Num_add_eq, Num_mul_eq, Num_sub_eq, pow_succ. split.
      * assert (E2 : s1 + (1 - s1) * (1 # 10) - 1 == (9 # 10) * (s1 - 1)) by ring.
        rewrite E2, Hlaw. ring.
      * lra.
    + apply Num_lt_false in E. exists s1. split; [reflexivity|].
      assert (E1 : s1 == 1) by lra.
      split; [|exact Hle1]. rewrite pow_succ.
      assert (E2 : (9 # 10) * (9 # 10) ^ Z.of_nat k * (s - 1)
                   == (9 # 10) * ((9 # 10) ^ Z.of_nat k * (s - 1))) by ring.
      rewrite E2, <- Hlaw, E1. ring.
Qed.


Lemma hasHighlight_within node h : hasHighlight node h -> highlightWithin node h h.
Proof.
  unfold hasHighlight, highlightWithin. intros (Hr & Hg & Hb).
  rewrite Hr, Hg, Hb. repeat split; apply Qle_refl.
Qed.


(** No channel of a resting colour exceeds 1. *)
Lemma baseline_channels node :
  Color.r (baseline node) <= 1 /\ Color.g (baseline node) <= 1
  /\ Color.b (baseline node) <= 1.
Proof.
  assert (H : forall n, Num.div (Num.ofZ (Z.land n 255)) (Num.ofZ 255) <= 1).
  { intros n. rewrite Num_div_eq. unfold Num.ofZ.
    destruct (byte_bounds n) as [_ Hhi]. rewrite Zle_Qle in Hhi.
    apply Qle_shift_div_r; [reflexivity|]. rewrite Qmult_1_l. exact Hhi. }
  unfold baseline, Color.setHex. cbn [Color.r Color.g Color.b].
  repeat split; apply H.
Qed.

Lemma within_weaken node lo hi lo' hi' :
  highlightWithin node lo hi -> lo' <= lo -> hi <= hi' ->
  highlightWithin node lo' hi'.
Proof.
  unfold highlightWithin. intros (Hr & Hg & Hb) Hlo Hhi.
  destruct (baseline_channels node) as (Br & Bg & Bb).
  assert (W : forall o c, o <= 1 ->
                o + lo * (1 - o) <= c <= o + hi * (1 - o) ->
                o + lo' * (1 - o) <= c <= o + hi' * (1 - o)).
  { intros o c Ho [H1 H2].
    assert (L : lo' * (1 - o) <= lo * (1 - o)) by (apply Qmult_le_compat_r; lra).
    assert (U : hi * (1 - o) <= hi' * (1 - o)) by (apply Qmult_le_compat_r; lra).
    split; lra. }
  auto.
Qed.

Lemma within_step c o lo hi :
  o + lo * (1 - o) <= c <= o + hi * (1 - o) ->
  o + (9 # 10) * lo * (1 - o) <= Num.add c (Num.mul (Num.sub o c) (1 # 10))
  <= o + (9 # 10) * hi * (1 - o).
Proof.
  intros [Hlo Hhi].
  assert (E : Num.add c (Num.mul (Num.sub o c) (1 # 10)) == c + (o - c) * (1 # 10))
    by (rewrite Num_add_eq, Num_mul_eq, Num_sub_eq; reflexivity).
  rewrite E. clear E.
  assert (L : (9 # 10) * lo * (1 - o) == (9 # 10) * (lo * (1 - o))) by ring.
  assert (U : (9 # 10) * hi * (1 - o) == (9 # 10) * (hi * (1 - o))) by ring.
  rewrite L, U. clear L U.
  remember (lo * (1 - o)) as a. remember (hi * (1 - o)) as b.
  split; lra.
Qed.

(** One frame of decay takes a tenth off the bounds of the highlight while
    the flash shows, and leaves them alone afterwards. *)
Lemma within_decays node lo hi :
  highlightWithin node lo hi -> flashVisible node = true ->
  highlightWithin (decayNode node) ((9 # 10) * lo) ((9 # 10) * hi).
Proof.
  unfold highlightWithin. intros (Hr & Hg & Hb) Hv.
  rewrite emissive_decayNode, Hv, baseline_decayNode. unfold Color.lerp. simpl.
  split; [|split]; apply within_step; assumption.
Qed.

Lemma within_keeps node lo hi :
  highlightWithin node lo hi -> flashVisible node = false ->
  highlightWithin (decayNode node) lo hi.
Proof.
  unfold highlightWithin. intros H Hv.
  rewrite emissive_decayNode, Hv, baseline_decayNode. exact H.
Qed.

Lemma pow_nonneg (q : Q) k : 0 <= q -> 0 <= q ^ Z.of_nat k.
Proof.
  intros Hq. induction k as [|k IH]; [discriminate|].
  rewrite pow_succ. apply Qmult_le_0_compat; assumption.
Qed.

Lemma pow_mono (a b : Q) k : 0 <= a -> a <= b -> a ^ Z.of_nat k <= b ^ Z.of_nat k.
Proof.
  intros Ha Hab. induction k as [|k IH]; [apply Qle_refl|].
  rewrite !pow_succ.
  apply Qle_trans with (a * b ^ Z.of_nat k).
  - rewrite (Qmult_comm a (a ^ Z.of_nat k)), (Qmult_comm a (b ^ Z.of_nat k)).
    apply Qmult_le_compat_r; assumption.
  - apply Qmult_le_compat_r; [exact Hab|]. apply pow_nonneg. lra.
Qed.

Lemma pow_le_one (q : Q) k : 0 <= q -> q <= 1 -> q ^ Z.of_nat k <= 1.
Proof.
  intros H0 H1. induction k as [|k IH]; [apply Qle_refl|].
  rewrite pow_succ. pose proof (pow_nonneg q k H0) as Hp.
  apply Qle_trans with (1 * q ^ Z.of_nat k).
  - apply Qmult_le_compat_r; assumption.
  - rewrite Qmult_1_l. exact IH.
Qed.

(** Over [k] frames of decay with the flash showing at the start of each,
    the bounds of the highlight shrink by 0.9^k. *)
Lemma within_iter_visible k node lo hi :
  highlightWithin node lo hi ->
  (forall j, (j < k)%nat -> flashVisible (Nat.iter j decayNode node) = true) ->
  highlightWithin (Nat.iter k decayNode node)
    ((9 # 10) ^ Z.of_nat k * lo) ((9 # 10) ^ Z.of_nat k * hi).
Proof.
  intros H0. induction k as [|k IH]; intros Hv.
  - simpl. apply (within_weaken node lo hi); [exact H0 | lra | lra].
  - rewrite Nat.iter_succ.
    apply (within_weaken _ ((9 # 10) * ((9 # 10) ^ Z.of_nat k * lo))
             ((9 # 10) * ((9 # 10) ^ Z.of_nat k * hi))).
    + apply within_decays.
      * apply IH. intros j Hj. apply Hv. lia.
      * apply (Hv k). lia.
    + rewrite pow_succ, <- Qmult_assoc. apply Qle_refl.
    + rewrite pow_succ, <- Qmult_assoc. apply Qle_refl.
Qed.

(** Over any [k] frames of decay the upper bound stays and the lower bound
    shrinks by 0.9^k at most. *)
Lemma within_iter k node lo hi :
  highlightWithin node lo hi -> 0 <= lo -> lo <= hi ->
  highlightWithin (Nat.iter k decayNode node) ((9 # 10) ^ Z.of_nat k * lo) hi.
Proof.
  intros H0 Hlo Hhi. induction k as [|k IH].
  - simpl. apply (within_weaken node lo hi); [exact H0 | lra | lra].
  - rewrite Nat.iter_succ.
    pose proof (pow_nonneg (9 # 10) k) as Hp.
    assert (Hpl : 0 <= (9 # 10) ^ Z.of_nat k * lo)
      by (apply Qmult_le_0_compat; [apply Hp; discriminate | exact Hlo]).
    assert (E : (9 # 10) ^ Z.of_nat (S k) * lo
                == (9 # 10) * ((9 # 10) ^ Z.of_nat k * lo))
      by (rewrite pow_succ; ring).
    destruct (flashVisible (Nat.iter k decayNode node)) eqn:V.
    + apply (within_weaken _ ((9 # 10) * ((9 # 10) ^ Z.of_nat k * lo)) ((9 # 10) * hi)).
      * apply within_decays; assumption.
      * rewrite E. apply Qle_refl.
      * lra.
    + apply (within_weaken _ ((9 # 10) ^ Z.of_nat k * lo) hi).
      * apply within_keeps; assumption.
      * rewrite E. lra.
      * apply Qle_refl.
Qed.

(** The band of the rounded interpolation around the exact one. *)
Lemma decay_band k (a : Q) :
  0 <= a ->
  (89 # 100) ^ Z.of_nat k * a <= (9 # 10) ^ Z.of_nat k * a
  /\ (9 # 10) ^ Z.of_nat k * a <= (91 # 100) ^ Z.of_nat k * a
  /\ (9 # 10) ^ Z.of_nat k * a <= a.
Proof.
  intros Ha. split; [|split].
  - apply Qmult_le_compat_r; [|exact Ha]. apply pow_mono; discriminate.
  - apply Qmult_le_compat_r; [|exact Ha]. apply pow_mono; discriminate.
  - apply Qle_trans with (1 * a); [|rewrite Qmult_1_l; apply Qle_refl].
    apply Qmult_le_compat_r; [|exact Ha]. apply pow_le_one; discriminate.
Qed.




(** ** Stopped frames *)

(** C7. While the sequencer is stopped, whatever the number of frames, the
    wand stays where it is, no node's flag changes, no trigger occurs and no
    sound is dispatched; every frame still decays every node.  After one or
    more stopped frames a flash that showed has lost at least nine hundredths
    of its highlight, and a Kick above scale 1 at least nine hundredths of
    its excess over 1, without falling below 1; over [k] stopped frames the
    highlight of a flash that shows at the start of each of them, and the
    excess of a Kick as long as it is not lost in the rounding, come down to
    between 0.89^k and 0.91^k times what they were.  Stopping is only the
    play button changing class: it touches neither the wand nor a flag. *)
Theorem stopped_frames_only_decay (doms : list DOM) (refs : Refs) :
  ready refs ->
  Forall (λ dom, ~ playing dom) doms ->
  let out := run doms refs in
  wandGroup out.1 = wandGroup refs
  /\ (hasBeenTriggered ∘ userData) <$> soundNodes out.1
     = (hasBeenTriggered ∘ userData) <$> soundNodes refs
  /\ Forall (λ fired : list bool, fired = []) out.2
  /\ length out.2 = length doms
  /\ audioContext out.1 = audioContext refs
  /\ soundNodes out.1 = Nat.iter (length doms) decayNode <$> soundNodes refs
  /\ (doms <> [] ->
      forall i node0, soundNodes refs !! i = Some node0 ->
      exists node,
        soundNodes out.1 !! i = Some node
        /\ (forall lo hi, highlightWithin node0 lo hi -> 0 <= lo -> lo <= hi ->
            flashVisible node0 = true ->
            highlightWithin node ((89 # 100) ^ Z.of_nat (length doms) * lo)
              ((91 # 100) * hi)
            /\ ((forall j, (j < length doms)%nat ->
                   flashVisible (Nat.iter j decayNode node0) = true) ->
                highlightWithin node ((89 # 100) ^ Z.of_nat (length doms) * lo)
                  ((91 # 100) ^ Z.of_nat (length doms) * hi)))
        /\ (type (userData node0) = "kick" ->
            forall s, scale node0 = Vector3.mk s s s ->
            1 + (1 # 1000000000) <= s ->
            exists s', scale node = Vector3.mk s' s' s'
              /\ 1 <= s' /\ s' - 1 <= (91 # 100) * (s - 1)
              /\ ((1 # 1000000000) <= (89 # 100) ^ Z.of_nat (length doms) * (s - 1) ->
                  (89 # 100) ^ Z.of_nat (length doms) * (s - 1) <= s' - 1
                  <= (91 # 100) ^ Z.of_nat (length doms) * (s - 1)))).
Proof.
  intros Hr Hall out.
  assert (Hrest :
    wandGroup out.1 = wandGroup refs
    /\ (hasBeenTriggered ∘ userData) <$> soundNodes out.1
       = (hasBeenTriggered ∘ userData) <$> soundNodes refs
    /\ Forall (λ fired : list bool, fired = []) out.2
    /\ length out.2 = length doms
    /\ audioContext out.1 = audioContext refs
    /\ soundNodes out.1 = Nat.iter (length doms) decayNode <$> soundNodes refs).
  { subst out. revert refs Hr.
    induction Hall as [|dom doms Hp Hall IH]; intros refs Hr.
    - simpl. repeat split; try reflexivity; [constructor|].
      symmetry. apply list_fmap_id.
    - simpl. pose proof (ready_preserved dom refs Hr) as Hr'.
      rewrite (animate_stopped dom refs Hr Hp) in *.
      specialize (IH _ Hr'). simpl in IH.
      destruct (run doms _) as [refs'' log]. simpl in *.
      destruct IH as (Hw & Hf & Hlog & Hlen & Hctx & Hnodes).
      split; [exact Hw|]. split.
      { rewrite Hf, <- list_fmap_compose. apply list_fmap_ext.
        intros _ node _. simpl. rewrite userData_decayNode. reflexivity. }
      split; [constructor; [reflexivity | exact Hlog]|].
      split; [rewrite Hlen; reflexivity|].
      split; [exact Hctx|].
      rewrite Hnodes. apply (iter_decay_succ (length doms)). }
  destruct Hrest as (Hw & Hf & Hlog & Hlen & Hctx & Hnodes).
  repeat (split; [assumption|]).
  intros Hne i node0 Hi.
  exists (Nat.iter (length doms) decayNode node0).
  split; [rewrite Hnodes, list_lookup_fmap, Hi; reflexivity|].
  destruct doms as [|dom rest]; [contradiction|].
  cbn [length]. set (k := length rest).
  split.
  - intros lo hi Hh Hlo Hhi Hv.
    assert (Hhi0 : 0 <= hi) by lra.
    destruct (decay_band (S k) lo Hlo) as (Bl & _ & _).
    destruct (decay_band (S k) hi Hhi0) as (_ & Bh & _).
    split.
    + rewrite Nat.iter_succ_r.
      assert (H1 : highlightWithin (decayNode node0) ((9 # 10) * lo) ((9 # 10) * hi))
        by (apply within_decays; assumption).
      assert (H2 : highlightWithin (Nat.iter k decayNode (decayNode node0))
                     ((9 # 10) ^ Z.of_nat k * ((9 # 10) * lo)) ((9 # 10) * hi))
        by (apply within_iter; [exact H1 | lra | lra]).
      apply (within_weaken _ _ _ _ _ H2); [|lra].
      assert (E : (9 # 10) ^ Z.of_nat k * ((9 # 10) * lo)
                  == (9 # 10) ^ Z.of_nat (S k) * lo)
        by (rewrite pow_succ; ring).
      rewrite E. exact Bl.
    + intros Hall'.
      apply (within_weaken _ ((9 # 10) ^ Z.of_nat (S k) * lo)
               ((9 # 10) ^ Z.of_nat (S k) * hi));
        [apply within_iter_visible; assumption | exact Bl | exact Bh].
  - intros Hty s Hs Hle.
    assert (Hle1 : 1 <= s) by lra.
    destruct (scale_iter_kick (S k) node0 s Hty Hs Hle1) as (s' & Hs' & Hlaw & Hle').
    exists s'. split; [exact Hs'|]. split; [exact Hle'|].
    assert (Hex : 0 <= s - 1) by lra.
    destruct (decay_band (S k) (s - 1) Hex) as (B1 & B2 & _).
    destruct (decay_band k (s - 1) Hex) as (_ & _ & B3).
    assert (E : (9 # 10) ^ Z.of_nat (S k) * (s - 1)
                == (9 # 10) * ((9 # 10) ^ Z.of_nat k * (s - 1)))
      by (rewrite pow_succ; ring).
    remember ((9 # 10) ^ Z.of_nat (S k) * (s - 1)) as e1 eqn:Ee1.
    remember ((9 # 10) ^ Z.of_nat k * (s - 1)) as e eqn:Ee.
    remember ((89 # 100) ^ Z.of_nat (S k) * (s - 1)) as el eqn:Eel.
    remember ((91 # 100) ^ Z.of_nat (S k) * (s - 1)) as eh eqn:Eeh.
    split; [lra|]. intros _. split; lra.
Qed.

Lemma stopped_frames_only_decay_witness :
  wandGroup (run [stoppedDom; stoppedDom; ∅] midSweep).1
    = Some (Vector3.mk (-20) 0 0)
  /\ (hasBeenTriggered ∘ userData)
       <$> soundNodes (run [stoppedDom; stoppedDom; ∅] midSweep).1
     = [true; false; false]
  /\ (run [stoppedDom; stoppedDom; ∅] midSweep).2 = [[]; []; []]
  /\ soundNodes (run [stoppedDom; stoppedDom; ∅] midSweep).1
     = Nat.iter 3 decayNode <$> soundNodes midSweep
  /\ exists node s',
       soundNodes (run [stoppedDom; stoppedDom; ∅] flashed).1 !! 0%nat = Some node
       /\ highlightWithin node ((89 # 100) ^ 3 * 1) ((91 # 100) ^ 3 * 1)
       /\ scale node = Vector3.mk s' s' s'
       /\ 1 <= s'
       /\ (89 # 100) ^ 3 * ((6 # 5) - 1) <= s' - 1 <= (91 # 100) ^ 3 * ((6 # 5) - 1).
Proof.
  destruct (stopped_frames_only_decay [stoppedDom; stoppedDom; ∅] midSweep)
    as (Hw & Hf & Hlog & Hlen & _ & Hnodes & _).
  - reflexivity.
  - repeat constructor; unfold playing; vm_compute; discriminate.
  - split; [exact Hw|]. split; [exact Hf|]. split; [|split; [exact Hnodes|]].
    + destruct (run _ midSweep).2 as [|f1 [|f2 [|f3 [|f4 rest]]]];
        try discriminate Hlen.
      inversion Hlog as [|? ? -> Hlog2]. inversion Hlog2 as [|? ? -> Hlog3].
      inversion Hlog3 as [|? ? -> _]. reflexivity.
    + destruct (stopped_frames_only_decay [stoppedDom; stoppedDom; ∅] flashed)
        as (_ & _ & _ & _ & _ & _ & Hdecay).
      * reflexivity.
      * repeat constructor; unfold playing; vm_compute; discriminate.
      * destruct (soundNodes flashed !! 0%nat) as [node0|] eqn:Hi;
          [|vm_compute in Hi; discriminate Hi].
        destruct (Hdecay ltac:(discriminate) 0%nat node0 Hi)
          as (node & Hn & Hflash & Hkick).
        vm_compute in Hi. injection Hi as <-.
        destruct (Hkick eq_refl (6 # 5)) as (s' & Hs' & Hle & _ & Hlaw);
          [reflexivity | discriminate |].
        destruct (Hflash 1 1) as [_ Hband];
          [|discriminate | discriminate | vm_compute; reflexivity |].
        { apply hasHighlight_within, highlight_at_white. reflexivity. }
        exists node, s'. split; [exact Hn|]. split.
        { apply Hband. intros j Hj.
          destruct j as [|[|[|j]]]; [vm_compute; reflexivity..|simpl in Hj; lia]. }
        split; [exact Hs'|]. split; [exact Hle|]. apply Hlaw. discriminate.
Defined.

(** ** A sweep *)

Lemma triggerCount_cons i (fired : list bool) log :
  triggerCount i (fired :: log)
  = ((if decide (fired !! i = Some true) then 1 else 0) + triggerCount i log)%nat.
Proof.
  unfold triggerCount. rewrite filter_cons.
  destruct (decide (fired !! i = Some true)); reflexivity.
Qed.

(** A playing frame that does not wrap, seen from one node. *)
Lemma frame_step dom refs wand i node0 :
  ready refs -> playing dom -> wandGroup refs = Some wand ->
  soundNodes refs !! i = Some node0 ->
  Vector3.x wand + (1 # 2) <= 100 ->
  exists wand' node,
    wandGroup (animate dom refs).1 = Some wand'
    /\ Vector3.x wand' == Vector3.x wand + (1 # 2)
    /\ soundNodes (animate dom refs).1 !! i = Some node
    /\ position node = position node0
    /\ (animate dom refs).2 !! i = Some (inReach (Vector3.x wand') (decayNode node0))
    /\ hasBeenTriggered (userData node)
       = hasBeenTriggered (userData node0)
         || inReach (Vector3.x wand') (decayNode node0).
Proof.
  intros Hr Hp Hw Hi Hle.
  rewrite (animate_playing dom refs wand Hr Hp Hw).
  assert (Hle' : Vector3.x (advanceWand wand) <= 100)
    by (rewrite advanceWand_x; exact Hle).
  rewrite (wrapAround_stays _ _ Hle').
  cbn [fst snd wandGroup set_audioContext set_soundNodes set_wandGroup soundNodes].
  exists (advanceWand wand). eexists.
  split; [reflexivity|]. split; [apply advanceWand_x|].
  rewrite !list_lookup_fmap, Hi. cbn [fmap option_fmap option_map].
  split; [reflexivity|]. unfold touch.
  destruct (inReach (Vector3.x (advanceWand wand)) (decayNode node0)) eqn:R.
  - rewrite position_fire, position_decayNode, triggered_fire, orb_true_r.
    repeat split.
  - rewrite position_decayNode, userData_decayNode, orb_false_r. repeat split.
Qed.

Lemma inReach_decayNode wandX node :
  inReach wandX (decayNode node) = true <->
  hasBeenTriggered (userData node) = false
  /\ Qabs (Vector3.x (position node) - wandX) < 1.
Proof. rewrite inReach_spec, userData_decayNode, position_decayNode. reflexivity. Qed.

Lemma half_succ (n : nat) :
  inject_Z (Z.of_nat (S n)) * (1 # 2) == (1 # 2) + inject_Z (Z.of_nat n) * (1 # 2).
Proof.
  rewrite Nat2Z.inj_succ. unfold Z.succ. rewrite inject_Z_plus. ring.
Qed.

(** The node's part in [n] playing frames that stay within the plane: a node
    already triggered is left alone; an untriggered node not behind the wand
    is triggered once, or not yet, and then it is still a full unit ahead. *)
Lemma sweep_progress i doms :
  Forall playing doms ->
  forall refs wand node0,
  ready refs -> wandGroup refs = Some wand ->
  soundNodes refs !! i = Some node0 ->
  Vector3.x wand + inject_Z (Z.of_nat (length doms)) * (1 # 2) <= 100 ->
  exists wand' node,
    wandGroup (run doms refs).1 = Some wand'
    /\ Vector3.x wand' == Vector3.x wand + inject_Z (Z.of_nat (length doms)) * (1 # 2)
    /\ soundNodes (run doms refs).1 !! i = Some node
    /\ position node = position node0
    /\ (hasBeenTriggered (userData node0) = true ->
        hasBeenTriggered (userData node) = true
        /\ triggerCount i (run doms refs).2 = 0%nat)
    /\ (hasBeenTriggered (userData node0) = false ->
        Vector3.x wand <= Vector3.x (position node0) ->
        (hasBeenTriggered (userData node) = true
         /\ triggerCount i (run doms refs).2 = 1%nat)
        \/ (hasBeenTriggered (userData node) = false
            /\ triggerCount i (run doms refs).2 = 0%nat
            /\ (doms = [] \/ Vector3.x wand' + 1 <= Vector3.x (position node0)))).
Proof.
  induction 1 as [|dom doms Hp Hall IH]; intros refs wand node0 Hr Hw Hi Hle.
  - exists wand, node0. simpl.
    split; [exact Hw|]. split; [ring|]. split; [exact Hi|]. split; [reflexivity|].
    split; [intros Hf; split; [exact Hf | reflexivity]|].
    intros Hf _. right. split; [exact Hf|]. split; [reflexivity | left; reflexivity].
  - cbn [length] in *. rewrite half_succ in Hle. rewrite run_cons. cbn [fst snd].
    assert (Hx : 0 <= inject_Z (Z.of_nat (length doms)) * (1 # 2)).
    { apply Qmult_le_0_compat; [|discriminate].
      change 0 with (inject_Z 0). rewrite <- Zle_Qle. lia. }
    destruct (frame_step dom refs wand i node0 Hr Hp Hw Hi)
      as (wand1 & node1 & Hw1 & Hx1 & Hi1 & Hpos1 & Hfired & Hflag); [lra|].
    destruct (IH _ wand1 node1 (ready_preserved dom refs Hr) Hw1 Hi1)
      as (wand' & node & Hw' & Hx' & Hn & Hpos & Hdone & Htodo); [lra|].
    exists wand', node.
    split; [exact Hw'|]. split; [rewrite Hx', Hx1, half_succ; ring|].
    split; [exact Hn|]. split; [congruence|].
    rewrite triggerCount_cons, Hfired.
    destruct (inReach (Vector3.x wand1) (decayNode node0)) eqn:R.
    + apply inReach_decayNode in R as [Hf0 R].
      rewrite Hf0 in *. simpl in Hflag.
      destruct (Hdone Hflag) as [Hfl Hcnt].
      split; [discriminate|]. intros _ _. left.
      split; [exact Hfl|]. rewrite Hcnt.
      destruct (decide (Some true = Some true)); [reflexivity | congruence].
    + rewrite orb_false_r in Hflag.
      destruct (decide (Some false = Some true)) as [E|_]; [discriminate E|].
      split.
      * intros Hf0. apply Hdone. congruence.
      * intros Hf0 Hahead.
        assert (Hfar : Vector3.x wand1 + 1 <= Vector3.x (position node0)).
        { destruct (Qlt_le_dec (Vector3.x (position node0)) (Vector3.x wand1 + 1))
            as [Hnear|Hfar]; [|exact Hfar].
          exfalso.
          assert (R' : inReach (Vector3.x wand1) (decayNode node0) = true).
          { apply inReach_decayNode. split; [exact Hf0|].
            apply Qabs_Qlt_condition. split; lra. }
          congruence. }
        destruct Htodo as [Hyes|(Hfl & Hcnt & Hlast)]; [congruence|rewrite Hpos1; lra| |].
        -- left. exact Hyes.
        -- right. split; [exact Hfl|]. split; [exact Hcnt|]. right.
           destruct Hlast as [->|Hlast].
           ++ cbn [length] in Hx'. change (inject_Z (Z.of_nat 0)) with 0 in Hx'.
              rewrite Hx'. lra.
           ++ rewrite <- Hpos1. exact Hlast.
Qed.

(** The first sweep: from the left edge, the wand at rest and the node
    untriggered. *)
Lemma first_sweep_triggers_once doms refs wand i node0 :
  ready refs ->
  Forall playing doms -> length doms = 400%nat ->
  wandGroup refs = Some wand -> Vector3.x wand == -100 ->
  soundNodes refs !! i = Some node0 ->
  hasBeenTriggered (userData node0) = false ->
  -100 <= Vector3.x (position node0) <= 100 ->
  triggerCount i (run doms refs).2 = 1%nat
  /\ (exists node, soundNodes (run doms refs).1 !! i = Some node
        /\ hasBeenTriggered (userData node) = true
        /\ position node = position node0)
  /\ (exists wand', wandGroup (run doms refs).1 = Some wand'
        /\ Vector3.x wand' == 100).
Proof.
  intros Hr Hall Hlen Hw Hx Hi Hf [Hlo Hhi].
  assert (Hspan : inject_Z (Z.of_nat (length doms)) * (1 # 2) == 200)
    by (rewrite Hlen; reflexivity).
  destruct (sweep_progress i doms Hall refs wand node0 Hr Hw Hi)
    as (wand' & node & Hw' & Hx' & Hn & Hpos & _ & Htodo); [rewrite Hspan; lra|].
  rewrite Hspan in Hx'.
  destruct (Htodo Hf) as [[Hfl Hcnt]|(_ & _ & [->|Hfar])]; [lra| | |].
  - split; [exact Hcnt|]. split; [eauto|]. exists wand'. split; [exact Hw' | lra].
  - discriminate Hlen.
  - exfalso. lra.
Qed.

(** A wrapping frame, seen from one node: whatever its flag was, the node
    ends the frame triggered exactly if it is within reach of the left
    edge. *)
Lemma frame_wrap dom refs wand i node0 :
  ready refs -> playing dom -> wandGroup refs = Some wand ->
  soundNodes refs !! i = Some node0 ->
  100 < Vector3.x wand + (1 # 2) ->
  exists wand' node,
    wandGroup (animate dom refs).1 = Some wand'
    /\ Vector3.x wand' = -100
    /\ soundNodes (animate dom refs).1 !! i = Some node
    /\ position node = position node0
    /\ (animate dom refs).2 !! i = Some (hasBeenTriggered (userData node))
    /\ (hasBeenTriggered (userData node) = true <->
        Qabs (Vector3.x (position node0) - -100) < 1).
Proof.
  intros Hr Hp Hw Hi Hgt.
  rewrite (animate_playing dom refs wand Hr Hp Hw).
  assert (Hgt' : 100 < Vector3.x (advanceWand wand))
    by (rewrite advanceWand_x; exact Hgt).
  rewrite (wrapAround_wraps _ _ Hgt').
  cbn [fst snd wandGroup set_audioContext set_soundNodes set_wandGroup soundNodes
       Vector3.x Vector3.set_x].
  eexists. eexists. split; [reflexivity|]. split; [reflexivity|].
  rewrite !list_lookup_fmap, Hi. cbn [fmap option_fmap option_map].
  split; [reflexivity|]. unfold touch.
  destruct (inReach (-100) (set_hasBeenTriggered false (decayNode node0))) eqn:R.
  - rewrite position_fire, triggered_fire. cbn [position set_hasBeenTriggered set_userData].
    rewrite position_decayNode. split; [reflexivity|]. split; [reflexivity|].
    apply inReach_spec in R as [_ R]. cbn [position set_hasBeenTriggered set_userData] in R.
    rewrite position_decayNode in R. split; auto.
  - cbn [position userData hasBeenTriggered set_hasBeenTriggered set_userData].
    rewrite position_decayNode. split; [reflexivity|]. split; [reflexivity|].
    split; [discriminate|]. intros Hnear.
    assert (R' : inReach (-100) (set_hasBeenTriggered false (decayNode node0)) = true).
    { apply inReach_spec. cbn [position userData hasBeenTriggered
                                 set_hasBeenTriggered set_userData].
      rewrite position_decayNode. auto. }
    congruence.
Qed.

(** The same count over a sweep opened by the wrap: from the right edge, the
    wrapping frame and the 400 frames after it trigger every node of the
    plane exactly once, whatever its flag was before the wrap. *)
Lemma sweep_after_wrap_triggers_once dom doms refs wand i node0 :
  ready refs ->
  playing dom -> Forall playing doms -> length doms = 400%nat ->
  wandGroup refs = Some wand -> Vector3.x wand == 100 ->
  soundNodes refs !! i = Some node0 ->
  -100 <= Vector3.x (position node0) <= 100 ->
  triggerCount i (run (dom :: doms) refs).2 = 1%nat.
Proof.
  intros Hr Hp Hall Hlen Hw Hx Hi [Hlo Hhi].
  destruct (frame_wrap dom refs wand i node0 Hr Hp Hw Hi)
    as (wand1 & node1 & Hw1 & Hx1 & Hi1 & Hpos1 & Hfired & Hflag); [lra|].
  rewrite run_cons. cbn [fst snd]. rewrite triggerCount_cons, Hfired.
  assert (Hspan : inject_Z (Z.of_nat (length doms)) * (1 # 2) == 200)
    by (rewrite Hlen; reflexivity).
  destruct (sweep_progress i doms Hall _ wand1 node1 (ready_preserved dom refs Hr)
              Hw1 Hi1)
    as (wand' & node & Hw' & Hx' & Hn & Hpos & Hdone & Htodo);
    [rewrite Hspan, Hx1; lra|].
  rewrite Hspan, Hx1 in Hx'.
  destruct (hasBeenTriggered (userData node1)) eqn:F.
  - destruct (Hdone eq_refl) as [_ ->].
    destruct (decide (Some true = Some true)); [reflexivity | congruence].
  - destruct (decide (Some false = Some true)) as [E|_]; [discriminate E|].
    destruct (Htodo eq_refl) as [[_ ->]|(_ & _ & [->|Hfar])];
      [rewrite Hx1, Hpos1; lra | reflexivity | discriminate Hlen |].
    exfalso. rewrite Hpos1 in Hfar. lra.
Qed.

(** C1. In one uninterrupted sweep, the 400 playing frames that take the
    wand from the left edge (-100) to the right edge (100) in steps of 0.5,
    every node that lies within the plane is triggered (its flag going from
    false to true, at reach 1.0) exactly once, wherever it stands in the
    registry and whatever the other nodes are.  This holds for the first
    sweep, which starts with the wand at rest on the left edge and the node
    untriggered, and for every later one, which the wrapping frame opens by
    clearing the flags and detecting on the left edge. *)
Theorem every_node_triggers_once_per_sweep
    (doms : list DOM) (refs : Refs) (wand : Vector3.t) (i : nat) (node0 : Mesh) :
  ready refs ->
  Forall playing doms -> length doms = 400%nat ->
  wandGroup refs = Some wand ->
  soundNodes refs !! i = Some node0 ->
  -100 <= Vector3.x (position node0) <= 100 ->
  (Vector3.x wand == -100 ->
   hasBeenTriggered (userData node0) = false ->
   triggerCount i (run doms refs).2 = 1%nat
   /\ (exists node, soundNodes (run doms refs).1 !! i = Some node
         /\ hasBeenTriggered (userData node) = true
         /\ position node = position node0)
   /\ (exists wand', wandGroup (run doms refs).1 = Some wand'
         /\ Vector3.x wand' == 100))
  /\ (Vector3.x wand == 100 ->
      forall dom, playing dom ->
      triggerCount i (run (dom :: doms) refs).2 = 1%nat).
Proof.
  intros Hr Hall Hlen Hw Hi Hin. split.
  - intros Hx Hf. apply (first_sweep_triggers_once doms refs wand i node0); assumption.
  - intros Hx dom Hp.
    apply (sweep_after_wrap_triggers_once dom doms refs wand i node0); assumption.
Qed.

Lemma every_node_triggers_once_per_sweep_witness :
  triggerCount 2 (run (replicate 400 playingDom) scenario).2 = 1%nat
  /\ triggerCount 2 (run (playingDom :: replicate 400 playingDom) endOfSweep).2 = 1%nat.
Proof.
  assert (Hall : Forall playing (replicate 400 playingDom))
    by (apply Forall_replicate, playing_playingDom).
  assert (Hlen : length (replicate 400 playingDom) = 400%nat)
    by apply length_replicate.
  split.
  - destruct (soundNodes scenario !! 2%nat) as [node0|] eqn:Hi;
      [|vm_compute in Hi; discriminate Hi].
    assert (Hnode : Vector3.x (position node0) = 50
                    /\ hasBeenTriggered (userData node0) = false)
      by (vm_compute in Hi; injection Hi as <-; split; reflexivity).
    destruct Hnode as [Hx Hf].
    assert (Hin : -100 <= Vector3.x (position node0) <= 100)
      by (rewrite Hx; split; discriminate).
    destruct (every_node_triggers_once_per_sweep (replicate 400 playingDom) scenario
                (Vector3.mk (-100) 0 0) 2 node0 eq_refl Hall Hlen eq_refl Hi Hin)
      as [Hfirst _].
    destruct Hfirst as [Hcount _]; [reflexivity | exact Hf | exact Hcount].
  - destruct (soundNodes endOfSweep !! 2%nat) as [node0|] eqn:Hi;
      [|vm_compute in Hi; discriminate Hi].
    assert (Hx : Vector3.x (position node0) = 50)
      by (vm_compute in Hi; injection Hi as <-; reflexivity).
    assert (Hin : -100 <= Vector3.x (position node0) <= 100)
      by (rewrite Hx; split; discriminate).
    destruct (every_node_triggers_once_per_sweep (replicate 400 playingDom) endOfSweep
                (Vector3.mk 100 0 0) 2 node0 eq_refl Hall Hlen eq_refl Hi Hin)
      as [_ Hlater].
    apply Hlater; [reflexivity | exact playing_playingDom].
Defined.

(** ** The three-node scenario *)

(** C6. Synth at -50, Pluck at 0 and Kick at 50, the wand starting on the
    left edge and playing.  The Synth is triggered in frame 99, the Pluck in
    frame 199 and the Kick in frame 299, which leaves the Kick at scale 1.2
    (it was at 1 the frame before); no other frame of the sweep triggers
    anything.  After frame 400 the wand is on the right edge with the three
    flags set; frame 401 wraps it to -100 and clears the three flags,
    triggering nothing. *)
Theorem scenario_timeline :
  let quiet := [false; false; false] in
  let flags (refs : Refs) := (hasBeenTriggered ∘ userData) <$> soundNodes refs in
  let r298 := run (replicate 298 playingDom) scenario in
  let r299 := run [playingDom] r298.1 in
  let r400 := run (replicate 101 playingDom) r299.1 in
  let r401 := run [playingDom] r400.1 in
  r298.2 = replicate 98 quiet ++ [[true; false; false]]
           ++ replicate 99 quiet ++ [[false; true; false]]
           ++ replicate 99 quiet
  /\ scale <$> soundNodes r298.1 = replicate 3 (Vector3.mk 1 1 1)
  /\ r299.2 = [[false; false; true]]
  /\ scale <$> soundNodes r299.1
     = [Vector3.mk 1 1 1; Vector3.mk 1 1 1; Vector3.mk (6 # 5) (6 # 5) (6 # 5)]
  /\ wandGroup r299.1 = Some (Vector3.mk (99 # 2) 0 0)
  /\ r400.2 = replicate 101 quiet
  /\ wandGroup r400.1 = Some (Vector3.mk 100 0 0)
  /\ flags r400.1 = [true; true; true]
  /\ r401.2 = [quiet]
  /\ wandGroup r401.1 = Some (Vector3.mk (-100) 0 0)
  /\ flags r401.1 = [false; false; false].
Proof.
  vm_compute. repeat split.
Qed.

(** * Beyond the trigger engine *)

(** ** The buttons and what the engine reads from them *)

Lemma isGamePlaying_render ui : isGamePlaying (render ui) = isPlaying ui.
Proof.
  destruct ui as [a p]. unfold isGamePlaying, render, classListContains.
  cbn [isPlaying playStopClassName].
  rewrite !lookup_insert_ne by discriminate. rewrite lookup_singleton_eq.
  destruct p; vm_compute; reflexivity.
Qed.

Lemma selector_active_render ui inst :
  inst ∈ ["synth"; "pluck"; "kick"] ->
  classListContains (render ui) (String.append inst "-btn") "active"
  = String.eqb (activeInstrument ui) inst.
Proof.
  intros Hin. destruct ui as [a p]. unfold render, classListContains, instrumentClassName.
  cbn [activeInstrument].
  repeat (apply elem_of_cons in Hin as [-> | Hin]);
    [| | |apply elem_of_nil in Hin; contradiction].
  - rewrite lookup_insert_eq. destruct (String.eqb a "synth"); vm_compute; reflexivity.
  - rewrite lookup_insert_ne by discriminate. rewrite lookup_insert_eq.
    destruct (String.eqb a "pluck"); vm_compute; reflexivity.
  - rewrite !lookup_insert_ne by discriminate. rewrite lookup_insert_eq.
    destruct (String.eqb a "kick"); vm_compute; reflexivity.
Qed.

Lemma currentTypeOf_render ui :
  currentTypeOf (render ui)
  = if String.eqb (activeInstrument ui) "kick" then "kick"
    else if String.eqb (activeInstrument ui) "pluck" then "pluck" else "synth".
Proof.
  unfold currentTypeOf.
  change "pluck-btn" with (String.append "pluck" "-btn").
  change "kick-btn" with (String.append "kick" "-btn").
  rewrite !selector_active_render by (repeat constructor). reflexivity.
Qed.

(** X1. What the engine polls from the DOM is what the component rendered:
    the frame loop sees the sequencer playing exactly when [isPlaying] is
    set, and the placement reads back the active instrument whenever it is
    one of synth, pluck and kick (and reads synth for any other value). *)
Theorem rendered_state_is_read_back (ui : UiState) :
  isGamePlaying (render ui) = isPlaying ui
  /\ (recognised (activeInstrument ui) ->
      currentTypeOf (render ui) = activeInstrument ui)
  /\ (~ recognised (activeInstrument ui) -> currentTypeOf (render ui) = "synth").
Proof.
  split; [apply isGamePlaying_render|].
  rewrite currentTypeOf_render. split.
  - intros [-> | [-> | ->]]; reflexivity.
  - intros Hno.
    destruct (String.eqb_spec (activeInstrument ui) "kick") as [E|_];
      [exfalso; apply Hno; right; right; exact E|].
    destruct (String.eqb_spec (activeInstrument ui) "pluck") as [E|_];
      [exfalso; apply Hno; right; left; exact E|].
    reflexivity.
Qed.

Lemma rendered_state_is_read_back_witness :
  isGamePlaying (render (togglePlay initialUi)) = true
  /\ currentTypeOf (render (toggleInstrument "kick" initialUi)) = "kick"
  /\ currentTypeOf (render (toggleInstrument "drum" initialUi)) = "synth".
Proof.
  split; [|split].
  - exact (proj1 (rendered_state_is_read_back (togglePlay initialUi))).
  - apply (proj1 (proj2 (rendered_state_is_read_back
                           (toggleInstrument "kick" initialUi)))).
    right; right; reflexivity.
  - apply (proj2 (proj2 (rendered_state_is_read_back
                           (toggleInstrument "drum" initialUi)))).
    intros [H | [H | H]]; discriminate H.
Defined.

(** X2. Pressing an instrument button makes the next placement a node of
    that instrument, whatever was active before, and does not start or stop
    the sequencer; pressing Play/Stop flips what the frame loop reads and
    leaves the instrument of the next placement alone. *)
Theorem buttons_drive_the_engine
    (inst : string) (ui : UiState) (point : Vector3.t) (refs : Refs) :
  recognised inst ->
  (exists node,
     placeInstrument (render (toggleInstrument inst ui)) point refs
       = Ok (set_soundNodes (soundNodes refs ++ [node]) refs)
     /\ type (userData node) = inst)
  /\ isGamePlaying (render (toggleInstrument inst ui)) = isGamePlaying (render ui)
  /\ isGamePlaying (render (togglePlay ui)) = negb (isGamePlaying (render ui))
  /\ currentTypeOf (render (togglePlay ui)) = currentTypeOf (render ui).
Proof.
  intros Hinst. split; [|split; [|split]].
  - unfold placeInstrument. rewrite currentTypeOf_render. cbn [toggleInstrument activeInstrument].
    assert (E : (if String.eqb inst "kick" then "kick"
                 else if String.eqb inst "pluck" then "pluck" else "synth") = inst)
      by (destruct Hinst as [-> | [-> | ->]]; reflexivity).
    rewrite E.
    destruct (newNodeOf_known inst Hinst) as (geo & mat & Hnew & _).
    unfold placeInstrumentAs. rewrite Hnew. eexists. split; reflexivity.
  - rewrite !isGamePlaying_render. reflexivity.
  - rewrite !isGamePlaying_render. reflexivity.
  - rewrite !currentTypeOf_render. reflexivity.
Qed.

Lemma buttons_drive_the_engine_witness :
  (exists node,
     placeInstrument (render (toggleInstrument "pluck" initialUi))
       (Vector3.mk 3 0 4) startRefs
       = Ok (set_soundNodes (soundNodes startRefs ++ [node]) startRefs)
     /\ type (userData node) = "pluck")
  /\ isGamePlaying (render (togglePlay initialUi))
     = negb (isGamePlaying (render initialUi)).
Proof.
  destruct (buttons_drive_the_engine "pluck" initialUi (Vector3.mk 3 0 4) startRefs)
    as (Hplace & _ & Hplay & _).
  - right; left; reflexivity.
  - split; [exact Hplace | exact Hplay].
Defined.

(** ** Placement, in full *)

Lemma placeInstrument_ok dom point refs :
  exists geo mat,
    newNodeOf (currentTypeOf dom) = Some (THREE_Mesh geo mat)
    /\ placeInstrument dom point refs
       = Ok (set_soundNodes
               (soundNodes refs
                ++ [set_userData
                      {| type := currentTypeOf dom;
                         originalEmissive := Color.getHex (emissive mat);
                         hasBeenTriggered := false |}
                      (set_castShadow true
                         (set_position
                            (Vector3.set_y (Num.add (Vector3.y point) 1) point)
                            (set_position point (THREE_Mesh geo mat))))])
               refs).
Proof.
  destruct (newNodeOf_known _ (currentTypeOf_recognised dom)) as (geo & mat & Hnew & _).
  exists geo, mat. split; [exact Hnew|].
  unfold placeInstrument, placeInstrumentAs. rewrite Hnew. reflexivity.
Qed.

(** X3. Whatever the selector buttons look like, a placement succeeds.  It
    appends exactly one node after the nodes already there, which it leaves
    as they are, and touches neither the wand, the sound bank nor the audio
    context.  The node stands one unit above the point it was given, casts a
    shadow, is untriggered, and is a Kick if the Kick button is active, else
    a Pluck if the Pluck button is active, else a Synth. *)
Theorem placement_appends_one_node (dom : DOM) (point : Vector3.t) (refs : Refs) :
  exists node,
    placeInstrument dom point refs
      = Ok (set_soundNodes (soundNodes refs ++ [node]) refs)
    /\ position node
       = Vector3.mk (Vector3.x point) (Num.add (Vector3.y point) 1) (Vector3.z point)
    /\ castShadow node = true
    /\ hasBeenTriggered (userData node) = false
    /\ type (userData node)
       = (if classListContains dom "kick-btn" "active" then "kick"
          else if classListContains dom "pluck-btn" "active" then "pluck"
          else "synth")
    /\ newNodeOf (type (userData node))
       = Some (THREE_Mesh (geometry node) (material node)).
Proof.
  destruct (placeInstrument_ok dom point refs) as (geo & mat & Hnew & Hplace).
  eexists. split; [exact Hplace|].
  cbn [position castShadow userData hasBeenTriggered type geometry material
       set_userData set_castShadow set_position THREE_Mesh Vector3.set_y
       Vector3.x Vector3.y Vector3.z].
  split; [reflexivity|]. split; [reflexivity|]. split; [reflexivity|].
  split; [|exact Hnew].
  unfold currentTypeOf.
  destruct (classListContains dom "kick-btn" "active"),
           (classListContains dom "pluck-btn" "active"); reflexivity.
Qed.

(** ** Clicks *)

Lemma click_entry raycast win event dom st :
  onCanvasClick raycast win event dom st
  = let st1 :=
      match audioContext (engine st) with
      | Some _ => set_audioSuspended false st
      | None => st
      end in
    if negb (camera (engine st)) || negb (musicalPlane st) then Ok st1
    else
      match raycast (pointerOf win event) with
      | [] => Ok (set_pointer (pointerOf win event) st1)
      | hit :: _ =>
          match placeInstrument dom hit (engine st) with
          | Ok e => Ok (set_engine e (set_pointer (pointerOf win event) st1))
          | TypeError e => TypeError (set_engine e (set_pointer (pointerOf win event) st1))
          end
      end.
Proof.
  unfold onCanvasClick. destruct st as [e mp ptr susp].
  cbn [engine musicalPlane pointer audioSuspended set_audioSuspended].
  destruct (audioContext e); [destruct susp|]; reflexivity.
Qed.



(** X5. A click whose ray hits the plane never fails and places exactly one
    node, at the nearest intersection and of the instrument the buttons
    show; the pointer is left at the click's device coordinates. *)
Theorem click_places_at_nearest_hit
    (raycast : Q * Q -> list Vector3.t) (win : Window) (event : MouseEvent)
    (dom : DOM) (st : Stage) (hit : Vector3.t) (further : list Vector3.t) :
  camera (engine st) = true -> musicalPlane st = true ->
  raycast (pointerOf win event) = hit :: further ->
  exists st' node,
    onCanvasClick raycast win event dom st = Ok st'
    /\ engine st' = set_soundNodes (soundNodes (engine st) ++ [node]) (engine st)
    /\ placeInstrument dom hit (engine st) = Ok (engine st')
    /\ Vector3.x (position node) = Vector3.x hit
    /\ Vector3.z (position node) = Vector3.z hit
    /\ type (userData node) = currentTypeOf dom
    /\ pointer st' = pointerOf win event.
Proof.
  intros Hc Hp Hray. rewrite click_entry. cbv zeta. rewrite Hc, Hp, Hray.
  cbn [negb orb]. destruct st as [e mp ptr susp].
  cbn [engine musicalPlane pointer audioSuspended] in *.
  destruct (placeInstrument_ok dom hit e) as (geo & mat & _ & Hplace).
  rewrite Hplace. eexists. eexists. split; [reflexivity|].
  destruct (audioContext e); repeat split.
Qed.

Lemma click_places_at_nearest_hit_witness :
  exists st' node,
    onCanvasClick (λ _, [Vector3.mk 7 0 9; Vector3.mk 8 0 9]) (mkWindow 800 600)
      (mkMouseEvent 10 20) (render initialUi) (mkStage startRefs true (0, 0) true)
      = Ok st'
    /\ soundNodes (engine st') = [node]
    /\ Vector3.x (position node) = 7
    /\ type (userData node) = "synth".
Proof.
  destruct (click_places_at_nearest_hit (λ _, [Vector3.mk 7 0 9; Vector3.mk 8 0 9])
              (mkWindow 800 600) (mkMouseEvent 10 20) (render initialUi)
              (mkStage startRefs true (0, 0) true) (Vector3.mk 7 0 9) [Vector3.mk 8 0 9]
              eq_refl eq_refl eq_refl)
    as (st' & node & Hclick & He & _ & Hx & _ & Hty & _).
  exists st', node. split; [exact Hclick|]. split; [rewrite He; reflexivity|].
  split; [exact Hx|]. rewrite Hty. apply currentTypeOf_render.
Defined.


Lemma Num_neg_eq a : Num.neg a == - a.
Proof. apply Qred_correct. Qed.

Lemma unit_fraction a b : 0 < b -> 0 <= a <= b -> 0 <= a / b <= 1.
Proof.
  intros Hb [Ha Hab]. split.
  - apply Qle_shift_div_l; [exact Hb|]. lra.
  - apply Qle_shift_div_r; [exact Hb|]. lra.
Qed.

(** X7. For a click inside a window of positive size, the pointer handed to
    the raycaster lies in the device square: both coordinates are between -1
    and 1.  The vertical axis is flipped: the top left corner of the window
    maps to (-1, 1). *)
Theorem pointer_lies_in_device_square (win : Window) (event : MouseEvent) :
  0 < innerWidth win -> 0 < innerHeight win ->
  0 <= clientX event <= innerWidth win ->
  0 <= clientY event <= innerHeight win ->
  -1 <= (pointerOf win event).1 <= 1
  /\ -1 <= (pointerOf win event).2 <= 1
  /\ (clientX event == 0 -> (pointerOf win event).1 == -1)
  /\ (clientY event == 0 -> (pointerOf win event).2 == 1).
Proof.
  intros Hw Hh Hx Hy. unfold pointerOf. cbn [fst snd].
  rewrite Num_sub_eq, Num_add_eq, !Num_mul_eq, Num_neg_eq, !Num_div_eq.
  pose proof (unit_fraction _ _ Hw Hx) as [Hx0 Hx1].
  pose proof (unit_fraction _ _ Hh Hy) as [Hy0 Hy1].
  split; [split; lra|]. split; [split; lra|]. split.
  - intros E. rewrite E. field. lra.
  - intros E. rewrite E. field. lra.
Qed.

Lemma pointer_lies_in_device_square_witness :
  -1 <= (pointerOf (mkWindow 800 600) (mkMouseEvent 200 600)).1 <= 1
  /\ -1 <= (pointerOf (mkWindow 800 600) (mkMouseEvent 200 600)).2 <= 1.
Proof.
  destruct (pointer_lies_in_device_square (mkWindow 800 600) (mkMouseEvent 200 600))
    as (H1 & H2 & _); try (split; discriminate); try reflexivity.
  split; assumption.
Defined.

(** ** What frames keep *)

Lemma placedAs_decayNode node : placedAs (decayNode node) = placedAs node.
Proof.
  destruct node as [ge m p r s c [ty o f]]. unfold placedAs. decay_cases ty m o s.
Qed.

Lemma placedAs_fire node : placedAs (fire node) = placedAs node.
Proof. unfold fire, placedAs. simpl. destruct (String.eqb _ _); reflexivity. Qed.

Lemma placedAs_touch wandX node : placedAs (touch wandX node) = placedAs node.
Proof. unfold touch. destruct (inReach wandX node); [apply placedAs_fire | reflexivity]. Qed.

Lemma placedAs_wrapAround wand nodes :
  placedAs <$> (wrapAround wand nodes).2 = placedAs <$> nodes.
Proof.
  unfold wrapAround. destruct (pastEdge wand); [|reflexivity].
  cbn [snd]. rewrite <- list_fmap_compose. apply list_fmap_ext. reflexivity.
Qed.

Lemma frame_keeps_registry dom refs :
  placedAs <$> soundNodes (animate dom refs).1 = placedAs <$> soundNodes refs
  /\ soundBuffers (animate dom refs).1 = soundBuffers refs.
Proof.
  assert (Hdecay : placedAs <$> (decayNode <$> soundNodes refs)
                   = placedAs <$> soundNodes refs).
  { rewrite <- list_fmap_compose. apply list_fmap_ext. intros _ node _.
    apply placedAs_decayNode. }
  unfold animate. destruct (notReady refs); [split; reflexivity|].
  cbn [wandGroup set_soundNodes soundNodes soundBuffers audioContext].
  destruct (wandGroup refs) as [wand|]; [|split; [exact Hdecay | reflexivity]].
  destruct (isGamePlaying dom); [|split; [exact Hdecay | reflexivity]].
  pose proof (placedAs_wrapAround (advanceWand wand) (decayNode <$> soundNodes refs))
    as Hwrap.
  destruct (wrapAround _ _) as [wand2 nodes2]. rewrite detect_spec.
  cbn [fst snd soundNodes soundBuffers set_audioContext set_soundNodes set_wandGroup] in *.
  split; [|reflexivity].
  rewrite <- list_fmap_compose, <- Hdecay, <- Hwrap. apply list_fmap_ext.
  intros _ node _. apply placedAs_touch.
Qed.

(** X8. Frames never add, remove, reorder or move a node, and never change a
    node's instrument, shape, surface or resting colour; nor do they touch
    the sound bank.  Over any sequence of frames, playing or not, the
    registry keeps its length and every node what the placement gave it. *)
Theorem frames_keep_the_registry (doms : list DOM) (refs : Refs) :
  placedAs <$> soundNodes (run doms refs).1 = placedAs <$> soundNodes refs
  /\ length (soundNodes (run doms refs).1) = length (soundNodes refs)
  /\ soundBuffers (run doms refs).1 = soundBuffers refs.
Proof.
  assert (H : placedAs <$> soundNodes (run doms refs).1 = placedAs <$> soundNodes refs
              /\ soundBuffers (run doms refs).1 = soundBuffers refs).
  { revert refs. induction doms as [|dom doms IH]; intros refs; [split; reflexivity|].
    rewrite run_cons. cbn [fst].
    destruct (IH (animate dom refs).1) as [IHn IHb].
    destruct (frame_keeps_registry dom refs) as [Hn Hb].
    split; congruence. }
  destruct H as [Hn Hb]. split; [exact Hn|]. split; [|exact Hb].
  apply (f_equal length) in Hn. rewrite !length_fmap in Hn. exact Hn.
Qed.

(** ** The wand *)

Lemma half_units_succ (m : Z) :
  Num.add (Qred (-100 + inject_Z m * (1 # 2))) (1 # 2)
  = Qred (-100 + inject_Z (m + 1) * (1 # 2)).
Proof.
  unfold Num.add. apply Qred_complete. rewrite Qred_correct, inject_Z_plus. ring.
Qed.

Lemma half_units_value (m : Z) :
  Qred (-100 + inject_Z m * (1 # 2)) == -100 + inject_Z m * (1 # 2).
Proof. apply Qred_correct. Qed.

Lemma half_units_bound (m : Z) :
  (0 <= m <= 400)%Z ->
  0 <= inject_Z m * (1 # 2) <= 200.
Proof.
  intros [Hlo Hhi]. rewrite Zle_Qle in Hlo, Hhi.
  change (inject_Z 0) with 0 in Hlo. change (inject_Z 400) with 400 in Hhi.
  split; lra.
Qed.

(** A playing frame takes the wand half a unit on, and from the right edge
    back to the left one. *)
Lemma frame_moves_wand dom refs (m : Z) :
  ready refs -> playing dom -> (0 <= m <= 400)%Z ->
  wandGroup refs = Some (Vector3.mk (Qred (-100 + inject_Z m * (1 # 2))) 0 0) ->
  wandGroup (animate dom refs).1
  = Some (Vector3.mk (Qred (-100 + inject_Z ((m + 1) mod 401) * (1 # 2))) 0 0).
Proof.
  intros Hr Hp Hm Hw. rewrite (animate_playing dom refs _ Hr Hp Hw).
  cbn [fst wandGroup set_audioContext set_soundNodes set_wandGroup].
  unfold advanceWand. cbn [Vector3.x Vector3.set_x Vector3.y Vector3.z].
  rewrite half_units_succ.
  destruct (Z.eq_dec m 400%Z) as [-> | Hne].
  - rewrite wrapAround_wraps by (cbn [Vector3.x]; reflexivity). reflexivity.
  - assert (Hm1 : (0 <= m + 1 <= 400)%Z) by lia.
    assert (Hle : Qred (-100 + inject_Z (m + 1) * (1 # 2)) <= 100).
    { pose proof (half_units_bound _ Hm1) as Hb.
      pose proof (half_units_value (m + 1)) as Hv. lra. }
    rewrite wrapAround_stays by exact Hle.
    rewrite Z.mod_small by lia. reflexivity.
Qed.

(** X9. The sweep has a period of 401 frames, not 400: with the wand [m]
    half units from the left edge, after [n] playing frames it is
    [(m + n) mod 401] half units from it.  In particular the wand never
    leaves the plane, and never moves across it or up and down. *)
Theorem wand_position_after_frames (doms : list DOM) (refs : Refs) (m : Z) :
  ready refs -> Forall playing doms -> (0 <= m <= 400)%Z ->
  wandGroup refs = Some (Vector3.mk (Qred (-100 + inject_Z m * (1 # 2))) 0 0) ->
  wandGroup (run doms refs).1
  = Some (Vector3.mk
            (Qred (-100 + inject_Z ((m + Z.of_nat (length doms)) mod 401) * (1 # 2)))
            0 0).
Proof.
  intros Hr Hall. revert refs m Hr.
  induction Hall as [|dom doms Hp Hall IH]; intros refs m Hr Hm Hw.
  - simpl. rewrite Z.add_0_r, Z.mod_small by lia. exact Hw.
  - rewrite run_cons. cbn [fst length].
    pose proof (frame_moves_wand dom refs m Hr Hp Hm Hw) as Hw1.
    assert (Hm1 : (0 <= (m + 1) mod 401 <= 400)%Z)
      by (pose proof (Z.mod_pos_bound (m + 1) 401); lia).
    rewrite (IH _ ((m + 1) mod 401)%Z (ready_preserved dom refs Hr) Hm1 Hw1).
    assert (E : (((m + 1) mod 401 + Z.of_nat (length doms)) mod 401
                 = (m + Z.of_nat (S (length doms))) mod 401)%Z)
      by (rewrite Zplus_mod_idemp_l, Nat2Z.inj_succ; f_equal; lia).
    rewrite E. reflexivity.
Qed.

Lemma wand_position_after_frames_witness :
  wandGroup (run (replicate 401 playingDom) scenario).1
    = Some (Vector3.mk (Qred (-100 + inject_Z (401 mod 401) * (1 # 2))) 0 0)
  /\ wandGroup (run (replicate 1000 playingDom) scenario).1
     = Some (Vector3.mk (-1) 0 0).
Proof.
  split.
  - apply (wand_position_after_frames (replicate 401 playingDom) scenario 0);
      [reflexivity | apply Forall_replicate, playing_playingDom | lia | reflexivity].
  - rewrite (wand_position_after_frames (replicate 1000 playingDom) scenario 0);
      [rewrite length_replicate; reflexivity | reflexivity
      | apply Forall_replicate, playing_playingDom | lia | reflexivity].
Defined.

(** ** The sounds of a frame *)

Lemma dispatch_started wandX buffers nodes ctx :
  fold_left (dispatch wandX buffers) nodes (Some ctx)
  = Some {| started :=
              started ctx
              ++ omap (λ node, if inReach wandX node
                               then buffers !! type (userData node) else None)
                   nodes |}.
Proof.
  revert ctx. induction nodes as [|node rest IH]; intros ctx.
  - simpl. rewrite app_nil_r. destruct ctx; reflexivity.
  - cbn [fold_left omap list_omap]. unfold dispatch at 2.
    destruct (inReach wandX node); [|apply IH].
    destruct (buffers !! type (userData node)) as [buf|]; [|apply IH].
    cbn [playSound]. rewrite IH. cbn [started]. rewrite <- app_assoc. reflexivity.
Qed.

Lemma omap_zip_fired {A} (g : Mesh -> Mesh) (reach : Mesh -> bool)
    (sound : string -> option A) (nodes : list Mesh) :
  (forall node, type (userData (g node)) = type (userData node)) ->
  omap (λ node, if reach node then sound (type (userData node)) else None)
    (g <$> nodes)
  = omap (λ nf : Mesh * bool, if nf.2 then sound (type (userData nf.1)) else None)
      (zip nodes (reach <$> (g <$> nodes))).
Proof.
  intros Hty. induction nodes as [|node rest IH]; [reflexivity|].
  cbn [fmap list_fmap zip zip_with omap list_omap fst snd] in *.
  rewrite Hty, IH. reflexivity.
Qed.

Lemma wrapAround_fmap wand nodes :
  (wrapAround wand (decayNode <$> nodes)).2
  = (λ node, if pastEdge wand then set_hasBeenTriggered false (decayNode node)
             else decayNode node) <$> nodes.
Proof.
  unfold wrapAround. destruct (pastEdge wand); cbn [snd]; [|reflexivity].
  rewrite <- list_fmap_compose. reflexivity.
Qed.

(** X10. A playing frame starts, on the audio context, exactly the buffers
    of the nodes it triggers whose instrument has a decoded buffer, once
    each and in the order of the registry, after whatever was started
    before; nothing is started for an instrument without a buffer, and
    nothing already started is dropped. *)
Theorem frame_starts_the_triggered_buffers
    (dom : DOM) (refs : Refs) (wand : Vector3.t) (ctx : AudioContext) :
  ready refs -> playing dom -> wandGroup refs = Some wand ->
  audioContext refs = Some ctx ->
  audioContext (animate dom refs).1
  = Some {| started :=
              started ctx
              ++ omap (λ nf : Mesh * bool,
                         if nf.2 then soundBuffers refs !! type (userData nf.1)
                         else None)
                   (zip (soundNodes refs) (animate dom refs).2) |}.
Proof.
  intros Hr Hp Hw Hctx. rewrite (animate_playing dom refs wand Hr Hp Hw).
  cbn [fst snd audioContext set_audioContext]. rewrite Hctx, dispatch_started.
  rewrite wrapAround_fmap.
  rewrite (omap_zip_fired
             (λ node, if pastEdge (advanceWand wand)
                      then set_hasBeenTriggered false (decayNode node)
                      else decayNode node)
             (inReach (Vector3.x (wrapAround (advanceWand wand)
                                    (decayNode <$> soundNodes refs)).1))
             (λ ty, soundBuffers refs !! ty)); [reflexivity|].
  intros node. destruct (pastEdge (advanceWand wand)); cbn [userData set_hasBeenTriggered
    set_userData type]; rewrite userData_decayNode; reflexivity.
Qed.

Lemma frame_starts_the_triggered_buffers_witness :
  audioContext (animate playingDom (onDecoded "kick" (Decoded "3.wav") kickAtEdge)).1
  = Some {| started := [Decoded "3.wav"] |}.
Proof.
  rewrite (frame_starts_the_triggered_buffers playingDom
             (onDecoded "kick" (Decoded "3.wav") kickAtEdge)
             (Vector3.mk (-100) 0 0) {| started := [] |}
             eq_refl playing_playingDom eq_refl eq_refl).
  vm_compute. reflexivity.
Defined.

(** ** Pausing *)

Lemma fmap_congr {A B C} (sk : A -> B) (f : A -> C) (l1 l2 : list A) :
  (forall a b, sk a = sk b -> f a = f b) ->
  sk <$> l1 = sk <$> l2 -> f <$> l1 = f <$> l2.
Proof.
  intros Hf. revert l2. induction l1 as [|a l1 IH]; intros [|b l2] H;
    try discriminate H; [reflexivity|].
  cbn [fmap list_fmap] in *. injection H as Hab Hl.
  rewrite (Hf a b Hab), (IH l2 Hl). reflexivity.
Qed.

Lemma nodeSkeleton_decayNode node : nodeSkeleton (decayNode node) = nodeSkeleton node.
Proof. unfold nodeSkeleton. rewrite position_decayNode, userData_decayNode. reflexivity. Qed.

Lemma inReach_skeleton wandX a b :
  nodeSkeleton a = nodeSkeleton b -> inReach wandX a = inReach wandX b.
Proof. unfold nodeSkeleton, inReach. intros H. injection H as -> ->. reflexivity. Qed.

Lemma touch_skeleton wandX a b :
  nodeSkeleton a = nodeSkeleton b ->
  nodeSkeleton (touch wandX a) = nodeSkeleton (touch wandX b).
Proof.
  intros H. unfold touch. rewrite (inReach_skeleton wandX a b H).
  destruct (inReach wandX b); [|exact H].
  unfold nodeSkeleton in *. rewrite !position_fire, !triggered_fire. congruence.
Qed.

Lemma wrapAround_skeleton wand l1 l2 :
  nodeSkeleton <$> l1 = nodeSkeleton <$> l2 ->
  (wrapAround wand l1).1 = (wrapAround wand l2).1
  /\ nodeSkeleton <$> (wrapAround wand l1).2 = nodeSkeleton <$> (wrapAround wand l2).2.
Proof.
  intros H. unfold wrapAround. destruct (pastEdge wand); cbn [fst snd];
    [|split; [reflexivity | exact H]].
  split; [reflexivity|]. rewrite <- !list_fmap_compose.
  apply (fmap_congr nodeSkeleton); [|exact H].
  intros a b Hab. unfold nodeSkeleton in *. cbn. congruence.
Qed.

(** The playhead logic reads nothing but the skeleton. *)
Lemma frame_skeleton_congr dom r1 r2 :
  ready r1 -> ready r2 -> skeleton r1 = skeleton r2 ->
  skeleton (animate dom r1).1 = skeleton (animate dom r2).1
  /\ (animate dom r1).2 = (animate dom r2).2.
Proof.
  intros H1 H2 Hsk. unfold skeleton in Hsk. injection Hsk as Hw Hn.
  assert (Hdec : nodeSkeleton <$> (decayNode <$> soundNodes r1)
                 = nodeSkeleton <$> (decayNode <$> soundNodes r2)).
  { rewrite <- !list_fmap_compose.
    rewrite (list_fmap_ext (nodeSkeleton ∘ decayNode) nodeSkeleton (soundNodes r1))
      by (intros; apply nodeSkeleton_decayNode).
    rewrite (list_fmap_ext (nodeSkeleton ∘ decayNode) nodeSkeleton (soundNodes r2))
      by (intros; apply nodeSkeleton_decayNode).
    exact Hn. }
  destruct (isGamePlaying dom) eqn:Hp.
  - destruct (wandGroup r1) as [wand|] eqn:Hw1.
    + symmetry in Hw.
      rewrite (animate_playing dom r1 wand H1 Hp Hw1),
              (animate_playing dom r2 wand H2 Hp Hw).
      destruct (wrapAround_skeleton (advanceWand wand) _ _ Hdec) as [Hwd Hnd].
      unfold skeleton.
      cbn [fst snd wandGroup soundNodes set_audioContext set_soundNodes set_wandGroup].
      rewrite Hwd. split.
      * f_equal. rewrite <- !list_fmap_compose.
        apply (fmap_congr nodeSkeleton); [|exact Hnd].
        intros a b Hab. apply touch_skeleton, Hab.
      * apply (fmap_congr nodeSkeleton); [|exact Hnd].
        intros a b Hab. apply inReach_skeleton, Hab.
    + unfold animate, ready in *. rewrite H1, H2.
      cbn [wandGroup set_soundNodes]. rewrite Hw1, <- Hw.
      unfold skeleton. cbn [fst snd wandGroup soundNodes set_soundNodes].
      rewrite Hw1, <- Hw, Hdec. split; reflexivity.
  - assert (Hnp : ~ playing dom) by (unfold playing; congruence).
    rewrite (animate_stopped dom r1 H1 Hnp), (animate_stopped dom r2 H2 Hnp).
    unfold skeleton. cbn [fst snd wandGroup soundNodes set_soundNodes].
    rewrite Hw, Hdec. split; reflexivity.
Qed.

Lemma run_skeleton_congr doms r1 r2 :
  ready r1 -> ready r2 -> skeleton r1 = skeleton r2 ->
  skeleton (run doms r1).1 = skeleton (run doms r2).1
  /\ (run doms r1).2 = (run doms r2).2.
Proof.
  revert r1 r2. induction doms as [|dom doms IH]; intros r1 r2 H1 H2 Hsk.
  - split; [exact Hsk | reflexivity].
  - rewrite !run_cons. cbn [fst snd].
    destruct (frame_skeleton_congr dom r1 r2 H1 H2 Hsk) as [Hs Hf].
    destruct (IH _ _ (ready_preserved dom r1 H1) (ready_preserved dom r2 H2) Hs)
      as [Hs' Hl].
    split; [exact Hs' | congruence].
Qed.

Lemma stopped_frame_skeleton dom refs :
  ready refs -> ~ playing dom ->
  skeleton (animate dom refs).1 = skeleton refs /\ (animate dom refs).2 = [].
Proof.
  intros Hr Hp. rewrite (animate_stopped dom refs Hr Hp). split; [|reflexivity].
  unfold skeleton. cbn [fst snd wandGroup soundNodes set_soundNodes].
  f_equal. rewrite <- list_fmap_compose. apply list_fmap_ext.
  intros _ node _. apply nodeSkeleton_decayNode.
Qed.

Lemma triggerCount_nil_frame i log : triggerCount i ([] :: log) = triggerCount i log.
Proof.
  rewrite triggerCount_cons. destruct (decide (([] : list bool) !! i = Some true)) as [E|_];
    [rewrite lookup_nil in E; discriminate E | reflexivity].
Qed.

Lemma pause_invariance doms refs :
  ready refs ->
  skeleton (run doms refs).1
  = skeleton (run (filter (λ dom, isGamePlaying dom = true) doms) refs).1
  /\ forall i,
       triggerCount i (run doms refs).2
       = triggerCount i (run (filter (λ dom, isGamePlaying dom = true) doms) refs).2.
Proof.
  revert refs. induction doms as [|dom doms IH]; intros refs Hr.
  - split; reflexivity.
  - rewrite filter_cons. destruct (decide (isGamePlaying dom = true)) as [Hp|Hp].
    + rewrite !run_cons. cbn [fst snd].
      destruct (IH _ (ready_preserved dom refs Hr)) as [Hs Hc].
      split; [exact Hs|]. intros i. rewrite !triggerCount_cons, Hc. reflexivity.
    + rewrite run_cons. cbn [fst snd].
      destruct (stopped_frame_skeleton dom refs Hr Hp) as [Hs Hf].
      destruct (IH _ (ready_preserved dom refs Hr)) as [Hs' Hc].
      destruct (run_skeleton_congr (filter (λ dom, isGamePlaying dom = true) doms)
                  _ refs (ready_preserved dom refs Hr) Hr Hs) as [Hs'' Hl].
      split; [congruence|].
      intros i. rewrite Hf, triggerCount_nil_frame, Hc, Hl. reflexivity.
Qed.

(** X11. Pausing loses nothing and repeats nothing.  Stopped frames mixed
    into a sequence of frames, anywhere and in any number, change neither
    where the wand ends, nor which nodes end triggered, nor how often any
    node is triggered: all of these are as if only the playing frames had
    run. *)
Theorem pausing_changes_no_trigger (doms : list DOM) (refs : Refs) :
  ready refs ->
  let played := filter (λ dom, isGamePlaying dom = true) doms in
  wandGroup (run doms refs).1 = wandGroup (run played refs).1
  /\ (hasBeenTriggered ∘ userData) <$> soundNodes (run doms refs).1
     = (hasBeenTriggered ∘ userData) <$> soundNodes (run played refs).1
  /\ forall i, triggerCount i (run doms refs).2 = triggerCount i (run played refs).2.
Proof.
  intros Hr played. destruct (pause_invariance doms refs Hr) as [Hs Hc].
  fold played in Hs, Hc. unfold skeleton in Hs. injection Hs as Hw Hn.
  split; [exact Hw|]. split; [|exact Hc].
  apply (f_equal (fmap snd)) in Hn. rewrite <- !list_fmap_compose in Hn. exact Hn.
Qed.

Lemma pausing_changes_no_trigger_witness :
  wandGroup (run [playingDom; stoppedDom; playingDom; ∅] kickAtEdge).1
  = wandGroup (run [playingDom; playingDom] kickAtEdge).1
  /\ triggerCount 0 (run [playingDom; stoppedDom; playingDom; ∅] kickAtEdge).2
     = triggerCount 0 (run [playingDom; playingDom] kickAtEdge).2.
Proof.
  destruct (pausing_changes_no_trigger [playingDom; stoppedDom; playingDom; ∅]
              kickAtEdge ready_kickAtEdge) as (Hw & _ & Hc).
  split; [exact Hw | exact (Hc 0%nat)].
Defined.

(** ** Between two wraps *)

Lemma no_wrap_progress i doms :
  Forall playing doms ->
  forall refs wand node0,
  ready refs -> wandGroup refs = Some wand ->
  soundNodes refs !! i = Some node0 ->
  Vector3.x wand + inject_Z (Z.of_nat (length doms)) * (1 # 2) <= 100 ->
  (triggerCount i (run doms refs).2 <= 1)%nat
  /\ (hasBeenTriggered (userData node0) = true ->
      triggerCount i (run doms refs).2 = 0%nat)
  /\ (Vector3.x (position node0) <= Vector3.x wand - (1 # 2) ->
      triggerCount i (run doms refs).2 = 0%nat).
Proof.
  induction 1 as [|dom doms Hp Hall IH]; intros refs wand node0 Hr Hw Hi Hle.
  - simpl. unfold triggerCount. simpl. repeat split; lia.
  - cbn [length] in Hle. rewrite half_succ in Hle. rewrite run_cons. cbn [fst snd].
    assert (Hx : 0 <= inject_Z (Z.of_nat (length doms)) * (1 # 2)).
    { apply Qmult_le_0_compat; [|discriminate].
      change 0 with (inject_Z 0). rewrite <- Zle_Qle. lia. }
    destruct (frame_step dom refs wand i node0 Hr Hp Hw Hi)
      as (wand1 & node1 & Hw1 & Hx1 & Hi1 & Hpos1 & Hfired & Hflag); [lra|].
    destruct (IH _ wand1 node1 (ready_preserved dom refs Hr) Hw1 Hi1)
      as (Hmost & Hdone & Hbehind); [lra|].
    rewrite triggerCount_cons, Hfired.
    destruct (inReach (Vector3.x wand1) (decayNode node0)) eqn:R.
    + apply inReach_decayNode in R as [Hf0 R].
      rewrite orb_true_r in Hflag. rewrite (Hdone Hflag).
      destruct (decide (Some true = Some true)) as [_|E]; [|congruence].
      split; [lia|]. split; [congruence|].
      intros Hb. exfalso. apply Qabs_Qlt_condition in R. lra.
    + rewrite orb_false_r in Hflag.
      destruct (decide (Some false = Some true)) as [E|_]; [discriminate E|].
      cbn [Nat.add]. split; [exact Hmost|]. split.
      * intros Hf0. apply Hdone. congruence.
      * intros Hb. apply Hbehind. rewrite Hpos1. lra.
Qed.

(** X12. Between two wraps a node is triggered at most once, wherever it
    stands (on the plane or off it) and however playing and stopped frames
    alternate; a node whose flag is already set is not triggered at all.
    The frames considered are any that do not take the wand past the right
    edge. *)
Theorem at_most_one_trigger_between_wraps
    (doms : list DOM) (refs : Refs) (wand : Vector3.t) (i : nat) (node0 : Mesh) :
  ready refs -> wandGroup refs = Some wand ->
  soundNodes refs !! i = Some node0 ->
  Vector3.x wand
  + inject_Z (Z.of_nat (length (filter (λ dom, isGamePlaying dom = true) doms)))
    * (1 # 2) <= 100 ->
  (triggerCount i (run doms refs).2 <= 1)%nat
  /\ (hasBeenTriggered (userData node0) = true ->
      triggerCount i (run doms refs).2 = 0%nat).
Proof.
  intros Hr Hw Hi Hle.
  destruct (pause_invariance doms refs Hr) as [_ Hc]. rewrite Hc.
  assert (Hall : Forall playing (filter (λ dom, isGamePlaying dom = true) doms)).
  { apply Forall_forall. intros dom Hin. apply list_elem_of_filter in Hin as [Hp _].
    exact Hp. }
  destruct (no_wrap_progress i _ Hall refs wand node0 Hr Hw Hi Hle)
    as (Hmost & Hdone & _).
  split; assumption.
Qed.

Lemma at_most_one_trigger_between_wraps_witness :
  (triggerCount 0 (run [playingDom; stoppedDom; playingDom; playingDom] kickAtEdge).2
   <= 1)%nat.
Proof.
  destruct (soundNodes kickAtEdge !! 0%nat) as [node0|] eqn:Hi;
    [|vm_compute in Hi; discriminate Hi].
  destruct (at_most_one_trigger_between_wraps
              [playingDom; stoppedDom; playingDom; playingDom] kickAtEdge
              (Vector3.mk (-100) 0 0) 0 node0 ready_kickAtEdge eq_refl Hi)
    as [Hmost _]; [vm_compute; discriminate | exact Hmost].
Defined.

(** X13. A node placed while the sweep is under way: if it is placed at or
    ahead of the wand (and on the plane), the rest of the sweep triggers it
    exactly once; if it is placed half a unit or more behind the wand, the
    rest of the sweep does not trigger it, and it stays silent until the
    wand has wrapped. *)
Theorem node_placed_mid_sweep
    (dom : DOM) (point : Vector3.t) (refs refs' : Refs) (wand : Vector3.t)
    (doms : list DOM) :
  ready refs -> wandGroup refs = Some wand ->
  placeInstrument dom point refs = Ok refs' ->
  Forall playing doms ->
  Vector3.x wand + inject_Z (Z.of_nat (length doms)) * (1 # 2) == 100 ->
  (Vector3.x wand <= Vector3.x point <= 100 -> doms <> [] ->
   triggerCount (length (soundNodes refs)) (run doms refs').2 = 1%nat)
  /\ (Vector3.x point <= Vector3.x wand - (1 # 2) ->
      triggerCount (length (soundNodes refs)) (run doms refs').2 = 0%nat).
Proof.
  intros Hr Hw Hplace Hall Hspan.
  destruct (placeInstrument_ok dom point refs) as (geo & mat & _ & Hok).
  rewrite Hok in Hplace. injection Hplace as <-.
  set (node0 := set_userData _ _).
  assert (Hi : (soundNodes refs ++ [node0]) !! length (soundNodes refs) = Some node0)
    by apply list_lookup_middle, eq_refl.
  assert (Hpos : Vector3.x (position node0) = Vector3.x point) by reflexivity.
  assert (Hflag : hasBeenTriggered (userData node0) = false) by reflexivity.
  split.
  - intros [Hlo Hhi] Hne.
    destruct (sweep_progress (length (soundNodes refs)) doms Hall
                (set_soundNodes (soundNodes refs ++ [node0]) refs) wand node0
                Hr Hw Hi)
      as (wand' & node & Hw' & Hx' & _ & _ & _ & Htodo); [lra|].
    destruct (Htodo Hflag) as [[_ Hcnt]|(_ & _ & [E|Hfar])];
      [rewrite Hpos; exact Hlo | exact Hcnt | contradiction |].
    exfalso. rewrite Hpos in Hfar. lra.
  - intros Hb.
    destruct (no_wrap_progress (length (soundNodes refs)) doms Hall
                (set_soundNodes (soundNodes refs ++ [node0]) refs) wand node0
                Hr Hw Hi)
      as (_ & _ & Hbehind); [lra|].
    apply Hbehind. rewrite Hpos. exact Hb.
Qed.

Lemma node_placed_mid_sweep_witness :
  triggerCount 3
    (run (replicate 240 playingDom)
       (place "pluck" 0 (set_wandGroup (Some (Vector3.mk (-20) 0 0)) scenario))).2
  = 1%nat
  /\ triggerCount 3
       (run (replicate 240 playingDom)
          (place "pluck" (-30) (set_wandGroup (Some (Vector3.mk (-20) 0 0)) scenario))).2
     = 0%nat.
Proof.
  assert (Hall : Forall playing (replicate 240 playingDom))
    by (apply Forall_replicate, playing_playingDom).
  assert (Hspan : Vector3.x (Vector3.mk (-20) 0 0)
                  + inject_Z (Z.of_nat (length (replicate 240 playingDom))) * (1 # 2)
                  == 100)
    by (rewrite length_replicate; reflexivity).
  split.
  - destruct (node_placed_mid_sweep (selectorDom "pluck") (Vector3.mk 0 0 0)
                (set_wandGroup (Some (Vector3.mk (-20) 0 0)) scenario)
                (place "pluck" 0 (set_wandGroup (Some (Vector3.mk (-20) 0 0)) scenario))
                (Vector3.mk (-20) 0 0) (replicate 240 playingDom)
                eq_refl eq_refl eq_refl Hall Hspan) as [Hahead _].
    apply Hahead; [split; discriminate | discriminate].
  - destruct (node_placed_mid_sweep (selectorDom "pluck") (Vector3.mk (-30) 0 0)
                (set_wandGroup (Some (Vector3.mk (-20) 0 0)) scenario)
                (place "pluck" (-30)
                   (set_wandGroup (Some (Vector3.mk (-20) 0 0)) scenario))
                (Vector3.mk (-20) 0 0) (replicate 240 playingDom)
                eq_refl eq_refl eq_refl Hall Hspan) as [_ Hbehind].
    apply Hbehind. discriminate.
Defined.

(** ** Sessions *)

Lemma hasHighlight_same a b h :
  emissive (material a) = emissive (material b) -> baseline a = baseline b ->
  hasHighlight a h -> hasHighlight b h.
Proof. unfold hasHighlight. intros -> ->. auto. Qed.

Lemma baseline_fire node : baseline (fire node) = baseline node.
Proof. unfold baseline, fire. simpl. destruct (String.eqb _ _); reflexivity. Qed.

Lemma nodeOk_decayNode node : nodeOk node -> nodeOk (decayNode node).
Proof.
  intros (Hty & Hpos & (s & Hs & Hlo & Hhi & Hother) & (h & Hh0 & Hh1 & Hh)).
  unfold nodeOk. rewrite userData_decayNode, position_decayNode.
  split; [exact Hty|]. split; [exact Hpos|]. split.
  - rewrite scale_decayNode, Hs. cbn [Vector3.x]. unfold Num.gt.
    destruct (String.eqb_spec (type (userData node)) "kick") as [Hk|Hk].
    + destruct (Num.lt 1 s) eqn:E; cbn [andb].
      * apply Num_lt_spec in E. unfold Vector3.lerp. cbn [Vector3.x Vector3.y Vector3.z].
        assert (Hs' : Num.add s (Num.mul (Num.sub 1 s) (1 # 10))
                      == s + (1 - s) * (1 # 10))
          by (rewrite Num_add_eq, Num_mul_eq, Num_sub_eq; reflexivity).
        eexists. split; [reflexivity|].
        split; [lra|]. split; [lra|]. intros Hno. contradiction.
      * exists s. repeat split; assumption.
    + cbn [andb]. exists s. repeat split; assumption.
  - destruct (flashVisible node) eqn:V.
    + exists ((9 # 10) * h). split; [lra|]. split; [lra|].
      apply highlight_decays; assumption.
    + exists h. split; [exact Hh0|]. split; [exact Hh1|].
      apply (hasHighlight_same node); [|symmetry; apply baseline_decayNode | exact Hh].
      rewrite emissive_decayNode, V. reflexivity.
Qed.

Lemma nodeOk_fire node : nodeOk node -> nodeOk (fire node).
Proof.
  intros (Hty & Hpos & (s & Hs & Hlo & Hhi & Hother) & _).
  unfold nodeOk. rewrite type_fire, position_fire, scale_fire.
  split; [exact Hty|]. split; [exact Hpos|]. split.
  - destruct (String.eqb_spec (type (userData node)) "kick") as [Hk|Hk].
    + eexists. split; [reflexivity|]. split; [discriminate|]. split; [discriminate|].
      intros Hno. contradiction.
    + exists s. repeat split; assumption.
  - exists 1. split; [discriminate|]. split; [discriminate|].
    apply highlight_at_white, emissive_fire.
Qed.

Lemma nodeOk_reset node : nodeOk node -> nodeOk (set_hasBeenTriggered false node).
Proof. intros H. exact H. Qed.

Lemma nodeOk_touch wandX node : nodeOk node -> nodeOk (touch wandX node).
Proof. intros H. unfold touch. destruct (inReach wandX node); [apply nodeOk_fire|]; exact H. Qed.

Lemma frame_nodes_ok dom refs :
  Forall nodeOk (soundNodes refs) -> Forall nodeOk (soundNodes (animate dom refs).1).
Proof.
  intros Hall.
  assert (Hdec : Forall nodeOk (decayNode <$> soundNodes refs)).
  { apply Forall_fmap. eapply Forall_impl; [exact Hall|]. apply nodeOk_decayNode. }
  unfold animate. destruct (notReady refs); [exact Hall|].
  cbn [wandGroup set_soundNodes soundNodes soundBuffers audioContext].
  destruct (wandGroup refs) as [wand|]; [|exact Hdec].
  destruct (isGamePlaying dom); [|exact Hdec].
  assert (Hwrap : Forall nodeOk (wrapAround (advanceWand wand)
                                   (decayNode <$> soundNodes refs)).2).
  { unfold wrapAround. destruct (pastEdge _); cbn [snd]; [|exact Hdec].
    apply Forall_fmap. eapply Forall_impl; [exact Hdec|]. apply nodeOk_reset. }
  destruct (wrapAround _ _) as [wand2 nodes2]. rewrite detect_spec.
  cbn [fst snd soundNodes set_audioContext set_soundNodes] in *.
  apply Forall_fmap. eapply Forall_impl; [exact Hwrap|]. apply nodeOk_touch.
Qed.

Lemma frame_wand_ok dom refs : ready refs -> wandOk refs -> wandOk (animate dom refs).1.
Proof.
  intros Hr (m & Hm & Hw). destruct (isGamePlaying dom) eqn:Hp.
  - exists ((m + 1) mod 401)%Z. split.
    + pose proof (Z.mod_pos_bound (m + 1) 401). lia.
    + apply frame_moves_wand; assumption.
  - exists m. split; [exact Hm|].
    rewrite animate_stopped; [exact Hw | exact Hr | unfold playing; congruence].
Qed.

Lemma placed_material_at_rest ty geo mat :
  newNodeOf ty = Some (THREE_Mesh geo mat) ->
  Color.setHex (Color.getHex (emissive mat)) = emissive mat.
Proof.
  unfold newNodeOf.
  destruct (String.eqb ty "synth"); [intros H; injection H as _ <-; reflexivity|].
  destruct (String.eqb ty "pluck"); [intros H; injection H as _ <-; reflexivity|].
  destruct (String.eqb ty "kick"); [intros H; injection H as _ <-; reflexivity|].
  discriminate.
Qed.

Lemma placed_node_ok dom point refs refs' :
  onPlane point -> placeInstrument dom point refs = Ok refs' ->
  exists node, refs' = set_soundNodes (soundNodes refs ++ [node]) refs /\ nodeOk node.
Proof.
  intros Hon Hplace.
  destruct (placeInstrument_ok dom point refs) as (geo & mat & Hnew & Hok).
  rewrite Hok in Hplace. injection Hplace as <-.
  eexists. split; [reflexivity|].
  split; [apply currentTypeOf_recognised|]. split; [exact Hon|]. split.
  - exists 1. split; [reflexivity|]. split; [discriminate|]. split; [discriminate|].
    reflexivity.
  - exists 0. split; [discriminate|]. split; [discriminate|].
    apply highlight_at_baseline. symmetry.
    apply (placed_material_at_rest _ _ _ Hnew).
Qed.

(** Every engine of a session is ready, has its wand on the plane and keeps
    its nodes well formed. *)
Lemma reachable_ok refs :
  reachable refs -> ready refs /\ wandOk refs /\ Forall nodeOk (soundNodes refs).
Proof.
  induction 1 as [|name buffer refs _ IH|dom point refs refs' _ IH Hon Hplace
                  |dom refs _ IH].
  - split; [reflexivity|]. split; [|constructor].
    exists 0%Z. split; [lia | reflexivity].
  - exact IH.
  - destruct IH as (Hr & Hw & Hn).
    destruct (placed_node_ok dom point refs refs' Hon Hplace) as (node & -> & Hok).
    split; [exact Hr|]. split; [exact Hw|].
    cbn [soundNodes set_soundNodes]. apply Forall_app. split; [exact Hn|].
    constructor; [exact Hok | constructor].
  - destruct IH as (Hr & Hw & Hn).
    split; [apply ready_preserved, Hr|].
    split; [apply frame_wand_ok; assumption | apply frame_nodes_ok, Hn].
Qed.

Lemma reachable_run doms refs : reachable refs -> reachable (run doms refs).1.
Proof.
  revert refs. induction doms as [|dom doms IH]; intros refs H; [exact H|].
  rewrite run_cons. cbn [fst]. apply IH, reach_frame, H.
Qed.

(** X14. Throughout a session (buffers decoded, nodes placed on the plane
    and frames run, in any order) the wand exists and stays on the plane: it
    is a whole number of half units from the left edge, between -100 and
    100, and has never moved across the plane or off it. *)
Theorem session_keeps_wand_on_plane (refs : Refs) :
  reachable refs ->
  exists (wand : Vector3.t) (m : Z),
    wandGroup refs = Some wand
    /\ (0 <= m <= 400)%Z
    /\ Vector3.x wand == -100 + inject_Z m * (1 # 2)
    /\ -100 <= Vector3.x wand <= 100
    /\ Vector3.y wand = 0 /\ Vector3.z wand = 0.
Proof.
  intros H. destruct (reachable_ok refs H) as (_ & (m & Hm & Hw) & _).
  eexists. exists m. split; [exact Hw|]. split; [exact Hm|].
  cbn [Vector3.x Vector3.y Vector3.z].
  pose proof (half_units_value m) as Hv. pose proof (half_units_bound m Hm) as Hb.
  split; [exact Hv|]. split; [split; lra|]. split; reflexivity.
Qed.

Lemma reachable_scenario : reachable scenario.
Proof.
  apply (reach_place (selectorDom "kick") (Vector3.mk 50 0 0)
           (place "pluck" 0 (place "synth" (-50) startRefs)));
    [|split; discriminate | reflexivity].
  apply (reach_place (selectorDom "pluck") (Vector3.mk 0 0 0)
           (place "synth" (-50) startRefs));
    [|split; discriminate | reflexivity].
  apply (reach_place (selectorDom "synth") (Vector3.mk (-50) 0 0) startRefs);
    [apply reach_start | split; discriminate | reflexivity].
Qed.

Lemma session_keeps_wand_on_plane_witness :
  exists (wand : Vector3.t) (m : Z),
    wandGroup (run (replicate 7 playingDom) scenario).1 = Some wand
    /\ (0 <= m <= 400)%Z
    /\ Vector3.x wand == -100 + inject_Z m * (1 # 2)
    /\ -100 <= Vector3.x wand <= 100
    /\ Vector3.y wand = 0 /\ Vector3.z wand = 0.
Proof.
  apply (session_keeps_wand_on_plane (run (replicate 7 playingDom) scenario).1).
  apply reachable_run, reachable_scenario.
Defined.



(** X16. In a session, whatever happened before, a full sweep triggers every
    node of the registry exactly once: from the wand on the right edge, the
    wrapping frame and the 400 playing frames after it trigger each node
    once, none twice and none never. *)
Theorem session_sweep_triggers_every_node_once
    (refs : Refs) (wand : Vector3.t) (dom : DOM) (doms : list DOM) (i : nat) :
  reachable refs ->
  wandGroup refs = Some wand -> Vector3.x wand == 100 ->
  playing dom -> Forall playing doms -> length doms = 400%nat ->
  (i < length (soundNodes refs))%nat ->
  triggerCount i (run (dom :: doms) refs).2 = 1%nat.
Proof.
  intros H Hw Hx Hp Hall Hlen Hi.
  destruct (reachable_ok refs H) as (Hr & _ & Hn).
  apply lookup_lt_is_Some in Hi as [node0 Hi].
  rewrite Forall_forall in Hn.
  destruct (Hn node0) as (_ & Hpos & _); [apply list_elem_of_lookup; eauto|].
  apply (sweep_after_wrap_triggers_once dom doms refs wand i node0); assumption.
Qed.

Lemma session_sweep_triggers_every_node_once_witness :
  triggerCount 1
    (run (playingDom :: replicate 400 playingDom)
       (place "pluck" 0 (place "kick" (-100) (run (replicate 400 playingDom) startRefs).1))).2
  = 1%nat.
Proof.
  assert (Hw : wandGroup (run (replicate 400 playingDom) startRefs).1
               = Some (Vector3.mk 100 0 0)) by (vm_compute; reflexivity).
  apply (session_sweep_triggers_every_node_once _ (Vector3.mk 100 0 0)).
  - apply (reach_place (selectorDom "pluck") (Vector3.mk 0 0 0)
             (place "kick" (-100) (run (replicate 400 playingDom) startRefs).1));
      [|split; discriminate | reflexivity].
    apply (reach_place (selectorDom "kick") (Vector3.mk (-100) 0 0)
             (run (replicate 400 playingDom) startRefs).1);
      [apply reachable_run, reach_start | split; discriminate | reflexivity].
  - exact Hw.
  - reflexivity.
  - exact playing_playingDom.
  - apply Forall_replicate, playing_playingDom.
  - apply length_replicate.
  - vm_compute. lia.
Defined.

(** ** Colours at rest *)

Lemma floor_half (n : Z) : Qfloor (inject_Z n + (1 # 2)) = n.
Proof.
  pose proof (Qfloor_le (inject_Z n + (1 # 2))) as Hlo.
  pose proof (Qlt_floor (inject_Z n + (1 # 2))) as Hhi.
  rewrite inject_Z_plus in Hhi. change (inject_Z 1) with 1 in Hhi.
  set (f := Qfloor (inject_Z n + (1 # 2))) in *.
  destruct (Z_lt_le_dec n f) as [Hlt|Hle].
  - exfalso. assert (H : (n + 1 <= f)%Z) by lia.
    rewrite Zle_Qle, inject_Z_plus in H. change (inject_Z 1) with 1 in H. lra.
  - destruct (Z_lt_le_dec f n) as [Hlt|Hge]; [|lia].
    exfalso. assert (H : (f + 1 <= n)%Z) by lia.
    rewrite Zle_Qle, inject_Z_plus in H. change (inject_Z 1) with 1 in H. lra.
Qed.

Lemma channelByte_of_byte (n : Z) :
  (0 <= n <= 255)%Z ->
  Color.channelByte (Num.div (Num.ofZ n) (Num.ofZ 255)) = n.
Proof.
  intros [Hlo Hhi]. rewrite Zle_Qle in Hlo, Hhi.
  change (inject_Z 0) with 0 in Hlo. change (inject_Z 255) with 255 in Hhi.
  unfold Color.channelByte, Num.round, Num.clamp, Num.ofZ.
  change (inject_Z 255) with 255. change (inject_Z 0) with 0.
  assert (Hq : Num.div (inject_Z n) 255 * 255 == inject_Z n)
    by (rewrite Num_div_eq; field).
  set (q := Num.div (inject_Z n) 255 * 255) in *.
  assert (Hmin : Num.min 255 q == inject_Z n).
  { unfold Num.min. destruct (Qle_bool 255 q) eqn:E; [|exact Hq].
    apply Qle_bool_iff in E. lra. }
  assert (Hmax : Num.max 0 (Num.min 255 q) == inject_Z n).
  { unfold Num.max. destruct (Qle_bool 0 (Num.min 255 q)) eqn:E; [exact Hmin|].
    assert (E' : ~ 0 <= Num.min 255 q) by (rewrite <- Qle_bool_iff; congruence).
    exfalso. apply E'. lra. }
  rewrite Hmax. apply floor_half.
Qed.

(** A colour set from a 24-bit hex reads back as that hex. *)
Lemma getHex_setHex (hex : Z) :
  (0 <= hex < 2 ^ 24)%Z -> Color.getHex (Color.setHex hex) = hex.
Proof.
  intros Hhex. unfold Color.getHex, Color.setHex. cbn [Color.r Color.g Color.b].
  rewrite !channelByte_of_byte by apply byte_bounds.
  change 255%Z with (Z.ones 8). rewrite !Z.land_ones by lia.
  rewrite !Z.shiftr_div_pow2 by lia.
  change (2 ^ 16)%Z with 65536%Z. change (2 ^ 8)%Z with 256%Z.
  change (2 ^ 24)%Z with 16777216%Z in Hhex.
  Z.to_euclidean_division_equations. lia.
Qed.

Lemma material_decayNode node :
  material (decayNode node)
  = {| color := color (material node); metalness := metalness (material node);
       roughness := roughness (material node);
       emissive := emissive (material (decayNode node)) |}.
Proof.
  destruct node as [ge m p r s c [ty o f]]. cbn [material].
  decay_cases ty m o s; destruct m; reflexivity.
Qed.

Lemma decay_at_rest node :
  (0 <= originalEmissive (userData node) < 2 ^ 24)%Z ->
  emissive (material node) = baseline node ->
  scale node = Vector3.mk 1 1 1 ->
  look (decayNode node) = look node.
Proof.
  intros Hhex He Hs.
  assert (Hv : flashVisible node = false).
  { unfold flashVisible. rewrite He. unfold baseline. rewrite getHex_setHex by exact Hhex.
    rewrite Z.eqb_refl. reflexivity. }
  unfold look. rewrite userData_decayNode. f_equal. f_equal. f_equal.
  - rewrite material_decayNode, emissive_decayNode, Hv.
    destruct (material node); reflexivity.
  - rewrite scale_decayNode, Hs. cbn [Vector3.x]. unfold Num.gt.
    assert (E : Num.lt 1 1 = false) by reflexivity.
    rewrite E, andb_false_r. reflexivity.
Qed.

Lemma look_iter_at_rest k node :
  (0 <= originalEmissive (userData node) < 2 ^ 24)%Z ->
  emissive (material node) = baseline node ->
  scale node = Vector3.mk 1 1 1 ->
  look (Nat.iter k decayNode node) = look node.
Proof.
  intros Hhex He Hs. induction k as [|k IH]; [reflexivity|].
  rewrite Nat.iter_succ_r.
  rewrite (look_iter_decay k _ _ (decay_at_rest node Hhex He Hs)). exact IH.
Qed.

(** X17. A node at rest stays at rest: with its emissive colour at its
    resting colour (any 24-bit colour) and its scale at 1, frames that do
    not trigger it, playing or not, leave its material and its scale exactly
    as they are. *)
Theorem node_at_rest_stays_at_rest
    (doms : list DOM) (refs : Refs) (i : nat) (node0 : Mesh) :
  ready refs ->
  soundNodes refs !! i = Some node0 ->
  (0 <= originalEmissive (userData node0) < 2 ^ 24)%Z ->
  emissive (material node0) = baseline node0 ->
  scale node0 = Vector3.mk 1 1 1 ->
  Forall (λ fired : list bool, fired !! i <> Some true) (run doms refs).2 ->
  exists node,
    soundNodes (run doms refs).1 !! i = Some node
    /\ material node = material node0
    /\ scale node = scale node0.
Proof.
  intros Hr Hi Hhex He Hs Hf.
  destruct (untriggered_node_decays_run doms refs i node0 Hr Hi Hf) as (node & Hn & Hl).
  exists node. split; [exact Hn|].
  rewrite (look_iter_at_rest (length doms) node0 Hhex He Hs) in Hl. unfold look in Hl. injection Hl as Hm Hsc _ _.
  split; assumption.
Qed.

Lemma node_at_rest_stays_at_rest_witness :
  exists node0 node,
    soundNodes scenario !! 2%nat = Some node0
    /\ soundNodes (run [playingDom; stoppedDom; playingDom] scenario).1 !! 2%nat
       = Some node
    /\ material node = material node0
    /\ scale node = scale node0.
Proof.
  destruct (soundNodes scenario !! 2%nat) as [node0|] eqn:Hi;
    [|vm_compute in Hi; discriminate Hi].
  destruct (node_at_rest_stays_at_rest [playingDom; stoppedDom; playingDom]
              scenario 2 node0 eq_refl Hi) as (node & Hn & Hm & Hs).
  - vm_compute in Hi. injection Hi as <-. split; [discriminate | reflexivity].
  - vm_compute in Hi. injection Hi as <-. reflexivity.
  - vm_compute in Hi. injection Hi as <-. reflexivity.
  - vm_compute. repeat constructor; discriminate.
  - exists node0, node. repeat split; assumption.
Defined.

(** ** Decay and spin, frame by frame *)



Lemma rotation_decayNode node :
  rotation (decayNode node)
  = if String.eqb (type (userData node)) "synth"
       || String.eqb (type (userData node)) "pluck"
    then Vector3.set_y (Num.add (Vector3.y (rotation node)) (1 # 100)) (rotation node)
    else rotation node.
Proof.
  destruct node as [ge m p r s c [ty o f]]. decay_cases ty m o s.
Qed.

Lemma rotation_fire node : rotation (fire node) = rotation node.
Proof. unfold fire. simpl. destruct (String.eqb _ _); reflexivity. Qed.

(** Whatever else a frame does to a node, it turns it as the decay does. *)
Lemma frame_spins dom refs i node0 :
  ready refs -> soundNodes refs !! i = Some node0 ->
  exists node,
    soundNodes (animate dom refs).1 !! i = Some node
    /\ rotation node = rotation (decayNode node0)
    /\ type (userData node) = type (userData node0).
Proof.
  intros Hr Hi. unfold ready in Hr. unfold animate. rewrite Hr.
  cbn [wandGroup set_soundNodes soundNodes soundBuffers audioContext].
  assert (Hdec : (decayNode <$> soundNodes refs) !! i = Some (decayNode node0))
    by (rewrite list_lookup_fmap, Hi; reflexivity).
  assert (Hty : type (userData (decayNode node0)) = type (userData node0))
    by (rewrite userData_decayNode; reflexivity).
  destruct (wandGroup refs) as [wand|]; [|eauto].
  destruct (isGamePlaying dom); [|eauto].
  pose proof (detection_input wand (soundNodes refs) i node0 Hi) as Hin.
  destruct (wrapAround _ _) as [wand2 nodes2]. rewrite detect_spec.
  cbn [fst snd soundNodes set_audioContext set_soundNodes] in *.
  rewrite list_lookup_fmap, Hin. cbn [fmap option_fmap option_map].
  eexists. split; [reflexivity|]. unfold touch.
  destruct (inReach _ _); [rewrite rotation_fire, type_fire|];
    destruct (pastEdge _); split; assumption || reflexivity.
Qed.

(** In exact arithmetic the turn of [k] frames is [k] hundredths. *)
Lemma spin_of_frames (doms : list DOM) (refs : Refs) (i : nat) (node0 : Mesh) :
  ready refs -> soundNodes refs !! i = Some node0 ->
  exists node,
    soundNodes (run doms refs).1 !! i = Some node
    /\ Vector3.x (rotation node) = Vector3.x (rotation node0)
    /\ Vector3.z (rotation node) = Vector3.z (rotation node0)
    /\ (type (userData node0) = "synth" \/ type (userData node0) = "pluck" ->
        Vector3.y (rotation node)
        == Vector3.y (rotation node0) + inject_Z (Z.of_nat (length doms)) * (1 # 100))
    /\ (type (userData node0) = "kick" -> rotation node = rotation node0).
Proof.
  revert refs node0. induction doms as [|dom doms IH]; intros refs node0 Hr Hi.
  - exists node0. simpl. split; [exact Hi|]. split; [reflexivity|].
    split; [reflexivity|]. split; [intros _; ring | reflexivity].
  - rewrite run_cons. cbn [fst].
    destruct (frame_spins dom refs i node0 Hr Hi) as (node1 & Hi1 & Hrot & Hty).
    destruct (IH _ node1 (ready_preserved dom refs Hr) Hi1)
      as (node & Hn & Hx & Hz & Hspin & Hstill).
    exists node. split; [exact Hn|].
    rewrite rotation_decayNode in Hrot. rewrite Hty in Hspin, Hstill.
    rewrite Hx, Hz, Hrot.
    split; [destruct (_ || _); reflexivity|].
    split; [destruct (_ || _); reflexivity|]. split.
    + intros Hsp. rewrite (Hspin Hsp), Hrot.
      assert (E : String.eqb (type (userData node0)) "synth"
                  || String.eqb (type (userData node0)) "pluck" = true)
        by (destruct Hsp as [-> | ->]; reflexivity).
      rewrite E. cbn [Vector3.y Vector3.set_y length].
      rewrite Num_add_eq, Nat2Z.inj_succ. unfold Z.succ. rewrite inject_Z_plus. ring.
    + intros Hk. rewrite (Hstill Hk), Hrot, Hk. reflexivity.
Qed.

(** X19. Synth and Pluck nodes spin, Kick nodes do not, and the spin does not
    care whether the sequencer plays: after [k] frames of any kind a Synth
    or Pluck, triggered or not, has turned about the vertical axis by [k]
    hundredths to within one part in ten thousand (the sum is rounded in
    every frame), as long as the angle stays within a thousand radians; a
    Kick has not turned at all, and no node ever turns about another
    axis. *)
Theorem nodes_spin_every_frame (doms : list DOM) (refs : Refs) (i : nat) (node0 : Mesh) :
  ready refs -> soundNodes refs !! i = Some node0 ->
  let k := inject_Z (Z.of_nat (length doms)) in
  let y0 := Vector3.y (rotation node0) in
  exists node,
    soundNodes (run doms refs).1 !! i = Some node
    /\ Vector3.x (rotation node) = Vector3.x (rotation node0)
    /\ Vector3.z (rotation node) = Vector3.z (rotation node0)
    /\ (type (userData node0) = "synth" \/ type (userData node0) = "pluck" ->
        -1000 <= y0 -> y0 + k * (1 # 50) <= 1000 ->
        y0 + k * (9999 # 1000000) <= Vector3.y (rotation node)
        <= y0 + k * (10001 # 1000000))
    /\ (type (userData node0) = "kick" -> rotation node = rotation node0).
Proof.
  intros Hr Hi k y0.
  destruct (spin_of_frames doms refs i node0 Hr Hi)
    as (node & Hn & Hx & Hz & Hspin & Hstill).
  exists node. repeat (split; [assumption|]). split; [|exact Hstill].
  intros Hsp _ _. specialize (Hspin Hsp). fold k y0 in Hspin.
  assert (Hk : 0 <= k).
  { subst k. change 0 with (inject_Z 0). rewrite <- Zle_Qle. lia. }
  clearbody k y0. split; lra.
Qed.

Lemma nodes_spin_every_frame_witness :
  exists node,
    soundNodes (run [stoppedDom; playingDom; stoppedDom] scenario).1 !! 0%nat = Some node
    /\ 3 * (9999 # 1000000) <= Vector3.y (rotation node) <= 3 * (10001 # 1000000).
Proof.
  destruct (soundNodes scenario !! 0%nat) as [node0|] eqn:Hi;
    [|vm_compute in Hi; discriminate Hi].
  destruct (nodes_spin_every_frame [stoppedDom; playingDom; stoppedDom] scenario 0
              node0 eq_refl Hi) as (node & Hn & _ & _ & Hspin & _).
  exists node. split; [exact Hn|].
  vm_compute in Hi. injection Hi as <-.
  destruct Hspin as [Hlo Hhi]; [left; reflexivity | discriminate | discriminate |].
  cbn [Vector3.y rotation length] in Hlo, Hhi.
  split; [exact Hlo | exact Hhi].
Defined.

(** ** When a node sounds *)

Lemma floor_unique (q : Q) (n : Z) : inject_Z n <= q -> q < inject_Z n + 1 -> Qfloor q = n.
Proof.
  intros Hlo Hhi.
  pose proof (Qfloor_le q) as Flo. pose proof (Qlt_floor q) as Fhi.
  rewrite inject_Z_plus in Fhi. change (inject_Z 1) with 1 in Fhi.
  set (f := Qfloor q) in *.
  destruct (Z_lt_le_dec n f) as [Hlt|Hle].
  - exfalso. assert (H : (n + 1 <= f)%Z) by lia.
    rewrite Zle_Qle, inject_Z_plus in H. change (inject_Z 1) with 1 in H. lra.
  - destruct (Z_lt_le_dec f n) as [Hlt|Hge]; [|lia].
    exfalso. assert (H : (f + 1 <= n)%Z) by lia.
    rewrite Zle_Qle, inject_Z_plus in H. change (inject_Z 1) with 1 in H. lra.
Qed.

Lemma floor_bounds (q : Q) : inject_Z (Qfloor q) <= q /\ q < inject_Z (Qfloor q) + 1.
Proof.
  split; [apply Qfloor_le|]. pose proof (Qlt_floor q) as H.
  rewrite inject_Z_plus in H. exact H.
Qed.

(** Once triggered, a node is passed over by every frame up to the wrap. *)
Lemma quiet_once_triggered i doms :
  Forall playing doms ->
  forall refs wand node0,
  ready refs -> wandGroup refs = Some wand ->
  soundNodes refs !! i = Some node0 ->
  hasBeenTriggered (userData node0) = true ->
  Vector3.x wand + inject_Z (Z.of_nat (length doms)) * (1 # 2) <= 100 ->
  Forall (λ fired : list bool, fired !! i = Some false) (run doms refs).2.
Proof.
  induction 1 as [|dom doms Hp Hall IH]; intros refs wand node0 Hr Hw Hi Hf Hle.
  - constructor.
  - cbn [length] in Hle. rewrite half_succ in Hle. rewrite run_cons. cbn [fst snd].
    assert (Hx : 0 <= inject_Z (Z.of_nat (length doms)) * (1 # 2)).
    { apply Qmult_le_0_compat; [|discriminate].
      change 0 with (inject_Z 0). rewrite <- Zle_Qle. lia. }
    destruct (frame_step dom refs wand i node0 Hr Hp Hw Hi)
      as (wand1 & node1 & Hw1 & Hx1 & Hi1 & _ & Hfired & Hflag); [lra|].
    rewrite Hf in Hflag. cbn [orb] in Hflag.
    assert (R : inReach (Vector3.x wand1) (decayNode node0) = false).
    { destruct (inReach _ _) eqn:R; [|reflexivity].
      apply inReach_decayNode in R as [R _]. congruence. }
    rewrite R in Hfired. constructor; [exact Hfired|].
    apply (IH _ wand1 node1 (ready_preserved dom refs Hr) Hw1 Hi1 Hflag). lra.
Qed.

Lemma trigger_frame i doms :
  Forall playing doms ->
  forall refs wand node0,
  ready refs -> wandGroup refs = Some wand ->
  soundNodes refs !! i = Some node0 ->
  hasBeenTriggered (userData node0) = false ->
  Vector3.x wand + 1 <= Vector3.x (position node0) ->
  Vector3.x wand + inject_Z (Z.of_nat (length doms)) * (1 # 2) <= 100 ->
  forall (t : nat) (fired : list bool),
    (run doms refs).2 !! t = Some fired ->
    (fired !! i = Some true <->
     Z.of_nat t = Qfloor (2 * (Vector3.x (position node0) - Vector3.x wand - 1))).
Proof.
  induction 1 as [|dom doms Hp Hall IH]; intros refs wand node0 Hr Hw Hi Hf Hahead Hle
    t fired Ht.
  - simpl in Ht. rewrite lookup_nil in Ht. discriminate Ht.
  - cbn [length] in Hle. rewrite half_succ in Hle. rewrite run_cons in Ht.
    cbn [fst snd] in Ht.
    assert (Hx : 0 <= inject_Z (Z.of_nat (length doms)) * (1 # 2)).
    { apply Qmult_le_0_compat; [|discriminate].
      change 0 with (inject_Z 0). rewrite <- Zle_Qle. lia. }
    destruct (frame_step dom refs wand i node0 Hr Hp Hw Hi)
      as (wand1 & node1 & Hw1 & Hx1 & Hi1 & Hpos1 & Hfired & Hflag); [lra|].
    remember (Vector3.x (position node0)) as nx eqn:Enx.
    remember (2 * (nx - Vector3.x wand - 1)) as q eqn:Eq.
    assert (Hq : q == 2 * (nx - Vector3.x wand - 1)) by (rewrite Eq; reflexivity).
    clear Eq.
    destruct (floor_bounds q) as [Flo Fhi].
    assert (Hq0 : 0 <= q) by lra.
    assert (Fnonneg : (0 <= Qfloor q)%Z).
    { change 0%Z with (Qfloor 0). apply Qfloor_resp_le, Hq0. }
    destruct (inReach (Vector3.x wand1) (decayNode node0)) eqn:R.
    + (* the node sounds in this frame *)
      apply inReach_decayNode in R as [_ R]. rewrite <- Enx in R.
      apply Qabs_Qlt_condition in R.
      assert (Fzero : Qfloor q = 0%Z)
        by (apply floor_unique; change (inject_Z 0) with 0; lra).
      rewrite Hf in Hflag. cbn [orb] in Hflag.
      destruct t as [|t]; cbn [lookup list_lookup] in Ht.
      * injection Ht as <-. rewrite Hfired, Fzero. split; reflexivity.
      * pose proof (quiet_once_triggered i doms Hall _ wand1 node1
                      (ready_preserved dom refs Hr) Hw1 Hi1 Hflag) as Hquiet.
        rewrite Forall_forall in Hquiet.
        assert (Hnone : fired !! i = Some false).
        { apply Hquiet; [lra|]. apply list_elem_of_lookup. eauto. }
        rewrite Hnone, Fzero. split; [discriminate | lia].
    + (* not yet *)
      assert (Hfar : Vector3.x wand1 + 1 <= nx).
      { destruct (Qlt_le_dec nx (Vector3.x wand1 + 1)) as [Hnear|Hfar]; [|exact Hfar].
        exfalso.
        assert (R' : inReach (Vector3.x wand1) (decayNode node0) = true).
        { apply inReach_decayNode. split; [exact Hf|]. rewrite <- Enx.
          apply Qabs_Qlt_condition. split; lra. }
        congruence. }
      rewrite orb_false_r in Hflag.
      assert (Fshift : Qfloor (2 * (Vector3.x (position node1) - Vector3.x wand1 - 1))
                       = (Qfloor q - 1)%Z).
      { apply floor_unique; rewrite Hpos1, <- Enx; unfold Z.sub;
          rewrite inject_Z_plus, inject_Z_opp; change (inject_Z 1) with 1; lra. }
      assert (Fpos : (1 <= Qfloor q)%Z).
      { assert (H1 : 1 <= q) by lra.
        change 1%Z with (Qfloor 1). apply Qfloor_resp_le, H1. }
      destruct t as [|t]; cbn [lookup list_lookup] in Ht.
      * injection Ht as <-. rewrite Hfired. split; [discriminate | lia].
      * assert (Hf1 : hasBeenTriggered (userData node1) = false) by congruence.
        assert (Hahead1 : Vector3.x wand1 + 1 <= Vector3.x (position node1))
          by (rewrite Hpos1, <- Enx; exact Hfar).
        assert (Hle1 : Vector3.x wand1
                       + inject_Z (Z.of_nat (length doms)) * (1 # 2) <= 100) by lra.
        rewrite (IH _ wand1 node1 (ready_preserved dom refs Hr) Hw1 Hi1
                   Hf1 Hahead1 Hle1 t fired Ht).
        rewrite Fshift. lia.
Qed.

(** X20. When a node sounds.  With the node untriggered and at least one
    unit ahead of the wand, frame number [t] of the frames that follow
    (counted from 0, all playing, none wrapping) triggers the node if and
    only if [t] is the whole part of twice its lead over the wand's reach:
    [t = floor (2 * (x_node - x_wand - 1))].  The node sounds while the wand
    is still between half a unit and a unit short of it.  A lead within
    2^-54 below a multiple of half a unit is left out: there the rounded
    difference of line 301 reaches 1.0 and the node sounds a frame later. *)
Theorem trigger_frame_number
    (doms : list DOM) (refs : Refs) (wand : Vector3.t) (i : nat) (node0 : Mesh)
    (t : nat) (fired : list bool) :
  ready refs -> Forall playing doms ->
  wandGroup refs = Some wand ->
  soundNodes refs !! i = Some node0 ->
  hasBeenTriggered (userData node0) = false ->
  Vector3.x wand + 1 <= Vector3.x (position node0) ->
  Vector3.x wand + inject_Z (Z.of_nat (length doms)) * (1 # 2) <= 100 ->
  let lead := 2 * (Vector3.x (position node0) - Vector3.x wand - 1) in
  lead + (1 # 9007199254740992) < inject_Z (Qfloor lead) + 1 ->
  (run doms refs).2 !! t = Some fired ->
  (fired !! i = Some true <-> Z.of_nat t = Qfloor lead).
Proof.
  intros Hr Hall Hw Hi Hf Hahead Hle lead _ Ht.
  apply (trigger_frame i doms Hall refs wand node0); assumption.
Qed.

Lemma trigger_frame_number_witness :
  exists fired,
    (run (replicate 4 playingDom) (place "kick" (-98) startRefs)).2 !! 2%nat = Some fired
    /\ fired !! 0%nat = Some true.
Proof.
  destruct ((run (replicate 4 playingDom) (place "kick" (-98) startRefs)).2 !! 2%nat)
    as [fired|] eqn:Ht; [|vm_compute in Ht; discriminate Ht].
  destruct (soundNodes (place "kick" (-98) startRefs) !! 0%nat) as [node0|] eqn:Hi;
    [|vm_compute in Hi; discriminate Hi].
  assert (Hnode : Vector3.x (position node0) = -98
                  /\ hasBeenTriggered (userData node0) = false)
    by (vm_compute in Hi; injection Hi as <-; split; reflexivity).
  destruct Hnode as [Hx Hf].
  exists fired. split; [reflexivity|].
  apply (trigger_frame_number (replicate 4 playingDom) (place "kick" (-98) startRefs)
           (Vector3.mk (-100) 0 0) 0 node0 2 fired).
  - reflexivity.
  - apply Forall_replicate, playing_playingDom.
  - reflexivity.
  - exact Hi.
  - exact Hf.
  - rewrite Hx. discriminate.
  - rewrite length_replicate. discriminate.
  - rewrite Hx. reflexivity.
  - exact Ht.
  - rewrite Hx. reflexivity.
Defined.
